(** * The NSS bignum adapter of cryptofuzz ([modules/nss/bn_ops.cpp])

    Every class of the operation catalogue has one method,
    [Run(Datasource& ds, Bignum& res, std::vector<Bignum>& bn)], which hands
    some of the operands to one routine of the MPI library of NSS and turns
    the routine's status into a [bool].

    The embedding keeps what the C++ passes by reference in an explicit
    machine state: the operand vector, the result object (which is either an
    object of its own or one of the elements of the vector, since [res] is a
    reference), the decision source, and a log of the native calls made.
    The MPI library is a parameter ([Backend]): the adapter is verified
    against every implementation of the routines, and facts about what the
    routines compute are stated as hypotheses on the backend. *)

From Stdlib Require Import ZArith String Ascii Decimal DecimalString DecimalZ Zcong Lia.
From stdpp Require Import base option list.

Local Open Scope Z_scope.

(** ** Native values *)

(** An [mp_int] of the library is an arbitrary-precision signed integer. *)
Definition mp_int : Type := Z.

(** A status is an [int] ([typedef int mp_err;]).  [MP_OKAY] is the one the
    adapter tests for; the header of the library, which is not among the
    sources, gives it the value 0, and negative values to the failures. *)
Definition mp_err : Type := Z.
Definition MP_OKAY : mp_err := 0.
Definition MP_RANGE : mp_err := -3.
Definition MP_UNDEF : mp_err := -5.

(** The answers of [mp_cmp]. *)
Definition MP_LT : Z := -1.
Definition MP_EQ : Z := 0.
Definition MP_GT : Z := 1.

(** ** The backend

    The routines [bn_ops.cpp] calls.  A routine with an output parameter
    takes the values of its [const mp_int*] inputs, then the value the output
    object holds before the call, and gives its status together with the
    value the output object holds afterwards (on failure too: the library
    decides what is left there).  A routine is a function of these values:
    called twice on the same values it answers the same.  [mp_div] is only
    ever called with a null remainder, so it has the quotient as its single
    output. *)
Record Backend : Type := {
  mp_zero    : mp_int -> mp_int;
  mp_cmp     : mp_int -> mp_int -> Z;
  mp_iseven  : mp_int -> Z;
  mp_isodd   : mp_int -> Z;
  mp_sqr     : mp_int -> mp_int -> mp_err * mp_int;
  mp_abs     : mp_int -> mp_int -> mp_err * mp_int;
  mp_neg     : mp_int -> mp_int -> mp_err * mp_int;
  mp_add     : mp_int -> mp_int -> mp_int -> mp_err * mp_int;
  mp_sub     : mp_int -> mp_int -> mp_int -> mp_err * mp_int;
  mp_mul     : mp_int -> mp_int -> mp_int -> mp_err * mp_int;
  mp_div     : mp_int -> mp_int -> mp_int -> mp_err * mp_int;
  mp_mod     : mp_int -> mp_int -> mp_int -> mp_err * mp_int;
  mp_gcd     : mp_int -> mp_int -> mp_int -> mp_err * mp_int;
  mp_lcm     : mp_int -> mp_int -> mp_int -> mp_err * mp_int;
  mp_sqrmod  : mp_int -> mp_int -> mp_int -> mp_err * mp_int;
  mp_invmod  : mp_int -> mp_int -> mp_int -> mp_err * mp_int;
  mp_exptmod : mp_int -> mp_int -> mp_int -> mp_int -> mp_err * mp_int;
  mp_addmod  : mp_int -> mp_int -> mp_int -> mp_int -> mp_err * mp_int;
  mp_submod  : mp_int -> mp_int -> mp_int -> mp_int -> mp_err * mp_int;
  mp_mulmod  : mp_int -> mp_int -> mp_int -> mp_int -> mp_err * mp_int;
}.

(** Names of the routines, for the call log. *)
Inductive Native : Type :=
  | n_zero | n_cmp | n_iseven | n_isodd
  | n_sqr | n_abs | n_neg
  | n_add | n_sub | n_mul | n_div | n_mod | n_gcd | n_lcm | n_sqrmod | n_invmod
  | n_exptmod | n_addmod | n_submod | n_mulmod.

#[global] Instance Native_eq_dec : EqDecision Native.
Proof. solve_decision. Defined.

(** One native call: the routine, the values of its inputs, what it returned
    (a status, or the answer of [mp_cmp], [mp_iseven], [mp_isodd]; [mp_zero]
    is [void] and is logged with 0), and the value it left in its output
    object, if it has one. *)
Record Call : Type := mkCall {
  callee   : Native;
  inputs   : list mp_int;
  returned : Z;
  output   : option mp_int;
}.

(** ** Bignum *)

Record Bignum : Type := mkBignum { mp : mp_int }.

(** [std::to_string(int)]. *)
Definition to_string (z : Z) : string := NilZero.string_of_int (Z.to_int z).

(** Decimal text to a number: an optional minus sign, then at least one
    digit. *)
Definition of_string (s : string) : option Z :=
  Z.of_int <$> NilZero.int_of_string s.

Module Bignum.

(** Modelled from the spec: the class [Bignum] is declared in [bn_ops.h],
    which is not among the sources.  A [Bignum] is "constructed empty",
    and the backend initialises a fresh [mp_int] to zero. *)
Definition new : Bignum := mkBignum 0.

(** Modelled from the spec: "[Set(text)] parses a decimal string
    (optionally signed) into the native representation, failing if the
    text is not a valid integer literal".  The [bool] is the method's
    return value; a rejected literal leaves the object as it was. *)
Definition Set_ (s : string) (b : Bignum) : bool * Bignum :=
  match of_string s with
  | Some z => (true, mkBignum z)
  | None => (false, b)
  end.

(** Modelled from the spec: the "canonical decimal string
    representation" of the value held. *)
Definition ToString (b : Bignum) : string := to_string (mp b).

End Bignum.

(** ** Machine state *)

(** [fuzzing::datasource::Datasource]: the bytes not yet consumed. *)
Definition Datasource : Type := list Byte.byte.

(** What the reference [Bignum& res] is bound to: an object outside the
    operand vector, or the element [bn[i]] of it. *)
Inductive ResRef : Type :=
  | ResOwn
  | ResOperand (i : nat).

Record Machine : Type := mkMachine {
  ds       : Datasource;          (* the object [ds] refers to *)
  bn       : list Bignum;         (* the vector [bn] refers to *)
  res_own  : Bignum;              (* the result object outside the vector *)
  log      : list Call;           (* native calls so far, latest first *)
}.

(** A run either returns a value in a new state or leaves defined
    behaviour by indexing the vector past its end. *)
Inductive Outcome (A : Type) : Type :=
  | Returns (a : A) (m : Machine)
  | OutOfBounds.
Arguments Returns {A} a m.
Arguments OutOfBounds {A}.

Definition Exec (A : Type) : Type := Machine -> Outcome A.

#[global] Instance Exec_ret : MRet Exec := fun A a m => Returns a m.
#[global] Instance Exec_bind : MBind Exec := fun A B f c m =>
  match c m with
  | Returns a m' => f a m'
  | OutOfBounds => OutOfBounds
  end.

(** [bn[i]], unchecked in C++. *)
Definition operand (i : nat) : Exec Bignum := fun m =>
  match bn m !! i with
  | Some b => Returns b m
  | None => OutOfBounds
  end.

(** Reading and writing through [res]. *)
Definition deref (r : ResRef) (m : Machine) : option Bignum :=
  match r with
  | ResOwn => Some (res_own m)
  | ResOperand i => bn m !! i
  end.

Definition assign (r : ResRef) (b : Bignum) (m : Machine) : Machine :=
  match r with
  | ResOwn => mkMachine (ds m) (bn m) b (log m)
  | ResOperand i => mkMachine (ds m) (<[i:=b]> (bn m)) (res_own m) (log m)
  end.

Definition load (r : ResRef) : Exec Bignum := fun m =>
  match deref r m with
  | Some b => Returns b m
  | None => OutOfBounds
  end.

Definition store (r : ResRef) (b : Bignum) : Exec unit := fun m =>
  Returns tt (assign r b m).

Definition record (c : Call) : Exec unit := fun m =>
  Returns tt (mkMachine (ds m) (bn m) (res_own m) (c :: log m)).

(** ** Native calls

    The inputs of a routine are [const]: it reads them and writes only its
    output object.  The values of the inputs are taken before the output is
    written, which is what the library does when an input and the output are
    the same object. *)

(** A routine with an output parameter bound to what [res] refers to. *)
Definition call (f : Native) (args : list mp_int)
    (impl : mp_int -> mp_err * mp_int) (res : ResRef) : Exec mp_err :=
  c ← load res;
  let '(e, v) := impl (mp c) in
  store res (mkBignum v);;
  record (mkCall f args e (Some v));;
  mret e.

(** [f(bn[i].GetPtr(), res.GetPtr())] *)
Definition native1 (f : Native) (impl : mp_int -> mp_int -> mp_err * mp_int)
    (i : nat) (res : ResRef) : Exec mp_err :=
  a ← operand i;
  call f [mp a] (impl (mp a)) res.

(** [f(bn[i].GetPtr(), bn[j].GetPtr(), res.GetPtr())] *)
Definition native2 (f : Native)
    (impl : mp_int -> mp_int -> mp_int -> mp_err * mp_int)
    (i j : nat) (res : ResRef) : Exec mp_err :=
  a ← operand i;
  b ← operand j;
  call f [mp a; mp b] (impl (mp a) (mp b)) res.

(** [f(bn[i].GetPtr(), bn[j].GetPtr(), bn[k].GetPtr(), res.GetPtr())] *)
Definition native3 (f : Native)
    (impl : mp_int -> mp_int -> mp_int -> mp_int -> mp_err * mp_int)
    (i j k : nat) (res : ResRef) : Exec mp_err :=
  a ← operand i;
  b ← operand j;
  c ← operand k;
  call f [mp a; mp b; mp c] (impl (mp a) (mp b) (mp c)) res.

(** [mp_zero(z.GetPtr())] on a local object [z]. *)
Definition native_zero (B : Backend) (z : Bignum) : Exec Bignum :=
  let v := mp_zero B (mp z) in
  record (mkCall n_zero [mp z] 0 (Some v));;
  mret (mkBignum v).

(** [mp_cmp(a.GetPtr(), b.GetPtr())] *)
Definition native_cmp (B : Backend) (a b : Bignum) : Exec Z :=
  let r := mp_cmp B (mp a) (mp b) in
  record (mkCall n_cmp [mp a; mp b] r None);;
  mret r.

(** [mp_iseven(a.GetPtr())], [mp_isodd(a.GetPtr())] *)
Definition native_iseven (B : Backend) (a : Bignum) : Exec Z :=
  let r := mp_iseven B (mp a) in
  record (mkCall n_iseven [mp a] r None);;
  mret r.

Definition native_isodd (B : Backend) (a : Bignum) : Exec Z :=
  let r := mp_isodd B (mp a) in
  record (mkCall n_isodd [mp a] r None);;
  mret r.

(** [res.Set(s)] *)
Definition res_Set (res : ResRef) (s : string) : Exec bool :=
  b ← load res;
  let '(ok, b') := Bignum.Set_ s b in
  store res b';;
  mret ok.

(** Modelled from the spec: the macro [CF_CHECK_EQ] comes from
    [cryptofuzz/util.h], which is not among the sources; it is the "checking
    a status code and jumping to a shared cleanup point" of the design
    notes.  [at_end] is the code after the label [end], [next] the code
    after the macro. *)
Definition CF_CHECK_EQ {A : Type} (expr : Exec Z) (expected : Z)
    (at_end next : Exec A) : Exec A :=
  v ← expr;
  if bool_decide (v ≠ expected) then at_end else next.

(** A truth test of an [int], as in [x ? 1 : 0]. *)
Definition truthy (x : Z) : bool := bool_decide (x ≠ 0).

(** ** The operation catalogue

    Each method starts with [(void)ds;]: the decision source is not read.
    The label [end:] is followed by [return ret;] alone, so the code at the
    label is [mret ret] with the value [ret] has at the jump. *)

(** [Add::Run], bn_ops.cpp line 11. *)
Module Add.
Definition Run (B : Backend) (res : ResRef) : Exec bool :=
  let ret := false in
  CF_CHECK_EQ (native2 n_add (mp_add B) 0 1 res) MP_OKAY (mret ret) (
  let ret := true in
  mret ret).
End Add.

(** [Sub::Run], bn_ops.cpp line 23. *)
Module Sub.
Definition Run (B : Backend) (res : ResRef) : Exec bool :=
  let ret := false in
  CF_CHECK_EQ (native2 n_sub (mp_sub B) 0 1 res) MP_OKAY (mret ret) (
  let ret := true in
  mret ret).
End Sub.

(** [Mul::Run], bn_ops.cpp line 35. *)
Module Mul.
Definition Run (B : Backend) (res : ResRef) : Exec bool :=
  let ret := false in
  CF_CHECK_EQ (native2 n_mul (mp_mul B) 0 1 res) MP_OKAY (mret ret) (
  let ret := true in
  mret ret).
End Mul.

(** [Div::Run], bn_ops.cpp line 47. *)
Module Div.
Definition Run (B : Backend) (res : ResRef) : Exec bool :=
  let ret := false in
  CF_CHECK_EQ (native2 n_div (mp_div B) 0 1 res) MP_OKAY (mret ret) (
  let ret := true in
  mret ret).
End Div.

(** [Sqr::Run], bn_ops.cpp line 59. *)
Module Sqr.
Definition Run (B : Backend) (res : ResRef) : Exec bool :=
  let ret := false in
  CF_CHECK_EQ (native1 n_sqr (mp_sqr B) 0 res) MP_OKAY (mret ret) (
  let ret := true in
  mret ret).
End Sqr.

(** [Mod::Run], bn_ops.cpp line 71. *)
Module Mod.
Definition Run (B : Backend) (res : ResRef) : Exec bool :=
  let ret := false in
  CF_CHECK_EQ (native2 n_mod (mp_mod B) 0 1 res) MP_OKAY (mret ret) (
  let ret := true in
  mret ret).
End Mod.

(** [ExpMod::Run], bn_ops.cpp line 83: a local [Bignum zero] is set to zero
    and compared with [bn[0]] before anything else. *)
Module ExpMod.
Definition Run (B : Backend) (res : ResRef) : Exec bool :=
  let ret := false in
  let zero := Bignum.new in
  zero ← native_zero B zero;
  base ← operand 0;
  c ← native_cmp B zero base;
  if bool_decide (c = 0) then mret ret else
  CF_CHECK_EQ (native3 n_exptmod (mp_exptmod B) 0 1 2 res) MP_OKAY (mret ret) (
  let ret := true in
  mret ret).
End ExpMod.

(** [GCD::Run], bn_ops.cpp line 101. *)
Module GCD.
Definition Run (B : Backend) (res : ResRef) : Exec bool :=
  let ret := false in
  CF_CHECK_EQ (native2 n_gcd (mp_gcd B) 0 1 res) MP_OKAY (mret ret) (
  let ret := true in
  mret ret).
End GCD.

(** [AddMod::Run], bn_ops.cpp line 113. *)
Module AddMod.
Definition Run (B : Backend) (res : ResRef) : Exec bool :=
  let ret := false in
  CF_CHECK_EQ (native3 n_addmod (mp_addmod B) 0 1 2 res) MP_OKAY (mret ret) (
  let ret := true in
  mret ret).
End AddMod.

(** [SubMod::Run], bn_ops.cpp line 125. *)
Module SubMod.
Definition Run (B : Backend) (res : ResRef) : Exec bool :=
  let ret := false in
  CF_CHECK_EQ (native3 n_submod (mp_submod B) 0 1 2 res) MP_OKAY (mret ret) (
  let ret := true in
  mret ret).
End SubMod.

(** [MulMod::Run], bn_ops.cpp line 137. *)
Module MulMod.
Definition Run (B : Backend) (res : ResRef) : Exec bool :=
  let ret := false in
  CF_CHECK_EQ (native3 n_mulmod (mp_mulmod B) 0 1 2 res) MP_OKAY (mret ret) (
  let ret := true in
  mret ret).
End MulMod.

(** [SqrMod::Run], bn_ops.cpp line 149. *)
Module SqrMod.
Definition Run (B : Backend) (res : ResRef) : Exec bool :=
  let ret := false in
  CF_CHECK_EQ (native2 n_sqrmod (mp_sqrmod B) 0 1 res) MP_OKAY (mret ret) (
  let ret := true in
  mret ret).
End SqrMod.

(** [InvMod::Run], bn_ops.cpp line 161. *)
Module InvMod.
Definition Run (B : Backend) (res : ResRef) : Exec bool :=
  let ret := false in
  CF_CHECK_EQ (native2 n_invmod (mp_invmod B) 0 1 res) MP_OKAY (mret ret) (
  let ret := true in
  mret ret).
End InvMod.

(** [LCM::Run], bn_ops.cpp line 173. *)
Module LCM.
Definition Run (B : Backend) (res : ResRef) : Exec bool :=
  let ret := false in
  CF_CHECK_EQ (native2 n_lcm (mp_lcm B) 0 1 res) MP_OKAY (mret ret) (
  let ret := true in
  mret ret).
End LCM.

(** [Cmp::Run], bn_ops.cpp line 185.  The value [Set] returns is dropped. *)
Module Cmp.
Definition Run (B : Backend) (res : ResRef) : Exec bool :=
  a ← operand 0;
  b ← operand 1;
  c ← native_cmp B a b;
  res_Set res (to_string c);;
  mret true.
End Cmp.

(** [Abs::Run], bn_ops.cpp line 192. *)
Module Abs.
Definition Run (B : Backend) (res : ResRef) : Exec bool :=
  let ret := false in
  CF_CHECK_EQ (native1 n_abs (mp_abs B) 0 res) MP_OKAY (mret ret) (
  let ret := true in
  mret ret).
End Abs.

(** [Neg::Run], bn_ops.cpp line 204. *)
Module Neg.
Definition Run (B : Backend) (res : ResRef) : Exec bool :=
  let ret := false in
  CF_CHECK_EQ (native1 n_neg (mp_neg B) 0 res) MP_OKAY (mret ret) (
  let ret := true in
  mret ret).
End Neg.

(** [IsEven::Run], bn_ops.cpp line 216. *)
Module IsEven.
Definition Run (B : Backend) (res : ResRef) : Exec bool :=
  a ← operand 0;
  p ← native_iseven B a;
  res_Set res (to_string (if truthy p then 1 else 0));;
  mret true.
End IsEven.

(** [IsOdd::Run], bn_ops.cpp line 225. *)
Module IsOdd.
Definition Run (B : Backend) (res : ResRef) : Exec bool :=
  a ← operand 0;
  p ← native_isodd B a;
  res_Set res (to_string (if truthy p then 1 else 0));;
  mret true.
End IsOdd.

(** The classes of the catalogue, and the virtual call [op.Run(ds, res, bn)]. *)
Inductive Operation : Type :=
  | Add | Sub | Mul | Div | Sqr | Mod | ExpMod | GCD | AddMod | SubMod
  | MulMod | SqrMod | InvMod | LCM | Cmp | Abs | Neg | IsEven | IsOdd.

Definition Run (B : Backend) (op : Operation) (res : ResRef) : Exec bool :=
  match op with
  | Add => Add.Run B res
  | Sub => Sub.Run B res
  | Mul => Mul.Run B res
  | Div => Div.Run B res
  | Sqr => Sqr.Run B res
  | Mod => Mod.Run B res
  | ExpMod => ExpMod.Run B res
  | GCD => GCD.Run B res
  | AddMod => AddMod.Run B res
  | SubMod => SubMod.Run B res
  | MulMod => MulMod.Run B res
  | SqrMod => SqrMod.Run B res
  | InvMod => InvMod.Run B res
  | LCM => LCM.Run B res
  | Cmp => Cmp.Run B res
  | Abs => Abs.Run B res
  | Neg => Neg.Run B res
  | IsEven => IsEven.Run B res
  | IsOdd => IsOdd.Run B res
  end.

(** The routine an operation is bound to. *)
Definition routine (op : Operation) : Native :=
  match op with
  | Add => n_add | Sub => n_sub | Mul => n_mul | Div => n_div
  | Sqr => n_sqr | Mod => n_mod | ExpMod => n_exptmod | GCD => n_gcd
  | AddMod => n_addmod | SubMod => n_submod | MulMod => n_mulmod
  | SqrMod => n_sqrmod | InvMod => n_invmod | LCM => n_lcm | Cmp => n_cmp
  | Abs => n_abs | Neg => n_neg | IsEven => n_iseven | IsOdd => n_isodd
  end.

(** The number of operands an operation indexes: one more than the largest
    [i] of the [bn[i]] in its [Run]. *)
Definition arity (op : Operation) : nat :=
  match op with
  | Sqr | Abs | Neg | IsEven | IsOdd => 1
  | Add | Sub | Mul | Div | Mod | GCD | SqrMod | InvMod | LCM | Cmp => 2
  | ExpMod | AddMod | SubMod | MulMod => 3
  end%nat.

(** ** An exact backend

    Modelled from the spec: the arithmetic library itself is external to
    the repository ("its internal algorithms are not reimplemented, only
    invoked").  [Exact] is a backend that computes the "correct
    mathematical value" of every routine and rejects the operands the spec
    names as backend rejections (division by zero, a modulus that is not
    positive, a non-invertible element), leaving the output object as it
    was.  It never runs out of memory.  It serves as the concrete backend of
    the examples; the theorems below hold for every backend. *)
Module Exact.

Definition ok (v : Z) : mp_err * mp_int := (MP_OKAY, v).

Definition zero (_ : mp_int) : mp_int := 0.

Definition cmp (a b : mp_int) : Z :=
  match a ?= b with
  | Lt => MP_LT
  | Eq => MP_EQ
  | Gt => MP_GT
  end.

Definition isodd (a : mp_int) : Z := if Z.odd a then 1 else 0.
Definition iseven (a : mp_int) : Z := if Z.odd a then 0 else 1.

Definition sqr (a c : mp_int) := ok (a * a).
Definition abs (a c : mp_int) := ok (Z.abs a).
Definition neg (a c : mp_int) := ok (- a).
Definition add (a b c : mp_int) := ok (a + b).
Definition sub (a b c : mp_int) := ok (a - b).
Definition mul (a b c : mp_int) := ok (a * b).

Definition div (a b c : mp_int) :=
  if b =? 0 then (MP_RANGE, c) else ok (a ÷ b).

Definition mod_ (a m c : mp_int) :=
  if m <=? 0 then (MP_RANGE, c) else ok (a mod m).

Definition gcd (a b c : mp_int) :=
  if (a =? 0) && (b =? 0) then (MP_RANGE, c) else ok (Z.gcd a b).

Definition lcm (a b c : mp_int) :=
  if (a =? 0) && (b =? 0) then (MP_RANGE, c) else ok (Z.lcm a b).

Definition sqrmod (a m c : mp_int) := mod_ (a * a) m c.

Definition invmod (a m c : mp_int) :=
  if (a =? 0) || (m <=? 0) then (MP_RANGE, c)
  else if Z.gcd a m =? 1 then ok (Z.invmod a m)
  else (MP_UNDEF, c).

Definition exptmod (a e m c : mp_int) :=
  if (e <? 0) || (m <=? 0) then (MP_RANGE, c) else ok (a ^ e mod m).

Definition addmod (a b m c : mp_int) := mod_ (a + b) m c.
Definition submod (a b m c : mp_int) := mod_ (a - b) m c.
Definition mulmod (a b m c : mp_int) := mod_ (a * b) m c.

Definition backend : Backend := {|
  mp_zero := zero; mp_cmp := cmp; mp_iseven := iseven; mp_isodd := isodd;
  mp_sqr := sqr; mp_abs := abs; mp_neg := neg;
  mp_add := add; mp_sub := sub; mp_mul := mul; mp_div := div;
  mp_mod := mod_; mp_gcd := gcd; mp_lcm := lcm; mp_sqrmod := sqrmod;
  mp_invmod := invmod; mp_exptmod := exptmod; mp_addmod := addmod;
  mp_submod := submod; mp_mulmod := mulmod |}.

End Exact.

(** What the driver prepares: a [Bignum] set from decimal text, and a
    machine with nothing logged yet. *)
Definition Bignum_of_text (s : string) : Bignum := (Bignum.Set_ s Bignum.new).2.

Definition start (src : Datasource) (operands : list Bignum) (r : Bignum) : Machine :=
  mkMachine src operands r [].

(** ** What the claims assume of the backend

    Facts about what a routine computes belong to the library.  Each is a
    predicate on backends, assumed only where a claim needs it; [Exact]
    has all of them. *)

(** [mp_zero] leaves zero behind. *)
Definition zero_correct (B : Backend) : Prop :=
  ∀ x, mp_zero B x = 0.

(** [mp_cmp] is the three-way comparison of the values. *)
Definition cmp_correct (B : Backend) : Prop :=
  ∀ a b, mp_cmp B a b =
    match a ?= b with Lt => MP_LT | Eq => MP_EQ | Gt => MP_GT end.

(** [mp_iseven] and [mp_isodd] are truth values for the parity. *)
Definition parity_correct (B : Backend) : Prop :=
  ∀ a, (mp_iseven B a ≠ 0 ↔ Z.even a = true) ∧
       (mp_isodd B a ≠ 0 ↔ Z.odd a = true).

(** [mp_div] does not report success on a zero divisor. *)
Definition div_rejects_zero (B : Backend) : Prop :=
  ∀ a c, (mp_div B a 0 c).1 ≠ MP_OKAY.

(** When they report success, [mp_sqr] and [mp_mul] have left the square
    and the product. *)
Definition sqr_correct (B : Backend) : Prop :=
  ∀ a c v, mp_sqr B a c = (MP_OKAY, v) → v = a * a.

Definition mul_correct (B : Backend) : Prop :=
  ∀ a b c v, mp_mul B a b c = (MP_OKAY, v) → v = a * b.

(** ** Vocabulary of the statements *)

(** The state after a native call has been logged. *)
Definition logged (c : Call) (m : Machine) : Machine :=
  mkMachine (ds m) (bn m) (res_own m) (c :: log m).

(** [res] is bound to an object that exists. *)
Definition res_valid (r : ResRef) (m : Machine) : Prop := is_Some (deref r m).

(** A routine that reports a status, as opposed to an answer. *)
Definition has_status (f : Native) : bool :=
  match f with
  | n_zero | n_cmp | n_iseven | n_isodd => false
  | _ => true
  end.

(** The call did not report a failure: its status is [MP_OKAY], or the
    routine has no status to report. *)
Definition succeeded (c : Call) : Prop :=
  has_status (callee c) = true → returned c = MP_OKAY.

(** [x ? 1 : 0] *)
Definition bit (p : Z) : Z := if truthy p then 1 else 0.

(** What [Run] leaves in the result after the call [c] of its routine: the
    routine's output, or the number whose decimal text encodes the answer. *)
Definition value_of (op : Operation) (c : Call) : option mp_int :=
  match op with
  | Cmp => Some (returned c)
  | IsEven | IsOdd => Some (bit (returned c))
  | _ => output c
  end.

(** The operations that are one call of a routine with a status. *)
Definition plain (op : Operation) : bool :=
  match op with
  | ExpMod | Cmp | IsEven | IsOdd => false
  | _ => true
  end.

(** The two calls that open [ExpMod::Run]. *)
Definition zero_call (B : Backend) : Call :=
  mkCall n_zero [0] 0 (Some (mp_zero B 0)).

Definition cmp_call (B : Backend) (a b : mp_int) : Call :=
  mkCall n_cmp [a; b] (mp_cmp B a b) None.

(** The base compares equal to the local zero. *)
Definition base_is_zero (B : Backend) (base : Bignum) : Prop :=
  mp_cmp B (mp_zero B 0) (mp base) = 0.

#[global] Instance base_is_zero_dec B base : Decision (base_is_zero B base).
Proof. unfold base_is_zero. apply _. Defined.

(** Two machines that differ at most in the decision source. *)
Definition same_but_ds (m1 m2 : Machine) : Prop :=
  bn m1 = bn m2 ∧ res_own m1 = res_own m2 ∧ log m1 = log m2.

(** ** The native call of an operation

    What the backend is asked, written from the catalogue rather than from
    the bodies of the [Run] methods, for the statements to compare with:
    the routine of each operation applied to the values of the leading
    operands in their order and to the value [c] the output object holds.
    ExpMod asks nothing when the backend's comparison of zero with the base
    answers 0. *)
Inductive Verdict : Type :=
  | Status (st : mp_err) (out : mp_int)   (* a status and what is left in the output *)
  | Answer (z : Z)                        (* the answer of a predicate, as encoded *)
  | NoCall.                               (* the routine is not called *)

Definition native_call (B : Backend) (op : Operation) (xs : list mp_int) (c : mp_int)
    : Verdict :=
  match op, xs with
  | Add, a :: b :: _ => Status (mp_add B a b c).1 (mp_add B a b c).2
  | Sub, a :: b :: _ => Status (mp_sub B a b c).1 (mp_sub B a b c).2
  | Mul, a :: b :: _ => Status (mp_mul B a b c).1 (mp_mul B a b c).2
  | Div, a :: b :: _ => Status (mp_div B a b c).1 (mp_div B a b c).2
  | Sqr, a :: _ => Status (mp_sqr B a c).1 (mp_sqr B a c).2
  | Mod, a :: b :: _ => Status (mp_mod B a b c).1 (mp_mod B a b c).2
  | ExpMod, a :: e :: n :: _ =>
      if bool_decide (mp_cmp B (mp_zero B 0) a = 0) then NoCall
      else Status (mp_exptmod B a e n c).1 (mp_exptmod B a e n c).2
  | GCD, a :: b :: _ => Status (mp_gcd B a b c).1 (mp_gcd B a b c).2
  | AddMod, a :: b :: n :: _ => Status (mp_addmod B a b n c).1 (mp_addmod B a b n c).2
  | SubMod, a :: b :: n :: _ => Status (mp_submod B a b n c).1 (mp_submod B a b n c).2
  | MulMod, a :: b :: n :: _ => Status (mp_mulmod B a b n c).1 (mp_mulmod B a b n c).2
  | SqrMod, a :: n :: _ => Status (mp_sqrmod B a n c).1 (mp_sqrmod B a n c).2
  | InvMod, a :: n :: _ => Status (mp_invmod B a n c).1 (mp_invmod B a n c).2
  | LCM, a :: b :: _ => Status (mp_lcm B a b c).1 (mp_lcm B a b c).2
  | Cmp, a :: b :: _ => Answer (mp_cmp B a b)
  | Abs, a :: _ => Status (mp_abs B a c).1 (mp_abs B a c).2
  | Neg, a :: _ => Status (mp_neg B a c).1 (mp_neg B a c).2
  | IsEven, a :: _ => Answer (bit (mp_iseven B a))
  | IsOdd, a :: _ => Answer (bit (mp_isodd B a))
  | _, _ => NoCall
  end.

(** The backend call reported success: the status is [MP_OKAY], or the
    routine is a predicate, which has no failure to report. *)
Definition reports_success (v : Verdict) : Prop :=
  match v with
  | Status st _ => st = MP_OKAY
  | Answer _ => True
  | NoCall => False
  end.

(** The value the call produced. *)
Definition left_value (v : Verdict) : option mp_int :=
  match v with
  | Status _ out => Some out
  | Answer z => Some z
  | NoCall => None
  end.

(** ** Frame reasoning

    [keeps R e]: every returning run of [e] relates the state before to the
    state after by [R].  For a reflexive and transitive [R] this goes
    through sequencing, so a property of the primitive steps is a property
    of every [Run]. *)
Definition keeps (R : Machine → Machine → Prop) {A : Type} (e : Exec A) : Prop :=
  ∀ m a m', e m = Returns a m' → R m m'.

(** What a run with result reference [res] may change: the log grows, and
    the object [res] is bound to is written. *)
Definition frame (res : ResRef) (m m' : Machine) : Prop :=
  ds m' = ds m ∧
  length (bn m') = length (bn m) ∧
  (∀ j, res ≠ ResOperand j → bn m' !! j = bn m !! j) ∧
  (res ≠ ResOwn → res_own m' = res_own m) ∧
  (∃ cs, log m' = cs ++ log m).

(** ** The decision source

    [with_ds d m] is [m] with another decision source; a computation is
    blind to the source when running it on [with_ds d m] is running it on
    [m] and swapping the source afterwards. *)
Definition with_ds (d : Datasource) (m : Machine) : Machine :=
  mkMachine d (bn m) (res_own m) (log m).

Definition lift_ds (d : Datasource) {A : Type} (o : Outcome A) : Outcome A :=
  match o with
  | Returns a m => Returns a (with_ds d m)
  | OutOfBounds => OutOfBounds
  end.

Definition ds_blind {A : Type} (e : Exec A) : Prop :=
  ∀ d m, e (with_ds d m) = lift_ds d (e m).

(** ** Vocabulary of the further properties *)

(** When they report success, [mp_add] and [mp_sub] have left the sum and
    the difference. *)
Definition add_correct (B : Backend) : Prop :=
  ∀ a b c v, mp_add B a b c = (MP_OKAY, v) → v = a + b.

Definition sub_correct (B : Backend) : Prop :=
  ∀ a b c v, mp_sub B a b c = (MP_OKAY, v) → v = a - b.

(** Two machines that agree on the first [n] operands, on the result object
    outside the vector and on the log; the operands from index [n] on and
    the decision source are free. *)
Definition agree (n : nat) (m1 m2 : Machine) : Prop :=
  take n (bn m1) = take n (bn m2) ∧ res_own m1 = res_own m2 ∧ log m1 = log m2.

(** Two outcomes that are both faults, or the same value in states related
    by [R]. *)
Definition alike {A : Type} (R : Machine → Machine → Prop) (o1 o2 : Outcome A) : Prop :=
  match o1, o2 with
  | Returns a1 m1, Returns a2 m2 => a1 = a2 ∧ R m1 m2
  | OutOfBounds, OutOfBounds => True
  | _, _ => False
  end.

(** A computation that cannot tell machines apart that agree up to [n]. *)
Definition lockstep (n : nat) {A : Type} (e : Exec A) : Prop :=
  ∀ m1 m2, agree n m1 m2 → alike (agree n) (e m1) (e m2).

(** * Execution lemmas *)

Lemma of_string_to_string z : of_string (to_string z) = Some z.
Proof.
  unfold of_string, to_string.
  rewrite NilZero.isi.
  - simpl. f_equal. apply DecimalZ.of_to.
  - destruct z as [|p|p]; simpl; try discriminate.
    intros [= H]. exact (DecimalPos.Unsigned.to_uint_nonnil p H).
  - destruct z as [|p|p]; simpl; try discriminate.
    intros [= H]. exact (DecimalPos.Unsigned.to_uint_nonnil p H).
Qed.

Section Execution.
Variable B : Backend.

Lemma operand_eq i m b : bn m !! i = Some b → operand i m = Returns b m.
Proof. unfold operand. by intros ->. Qed.

Lemma operand_oob i m : bn m !! i = None → operand i m = OutOfBounds.
Proof. unfold operand. by intros ->. Qed.

Lemma deref_assign r b m : res_valid r m → deref r (assign r b m) = Some b.
Proof.
  destruct r as [|i]; simpl; [done|].
  intros [x Hx]. apply list_lookup_insert_eq. by eapply lookup_lt_Some.
Qed.

Lemma deref_logged r c m : deref r (logged c m) = deref r m.
Proof. by destruct r. Qed.

Lemma res_valid_logged r c m : res_valid r (logged c m) ↔ res_valid r m.
Proof. unfold res_valid. by rewrite deref_logged. Qed.

Lemma call_eq f args impl res m c :
  deref res m = Some c →
  call f args impl res m =
    Returns (impl (mp c)).1
      (logged (mkCall f args (impl (mp c)).1 (Some (impl (mp c)).2))
              (assign res (mkBignum (impl (mp c)).2) m)).
Proof.
  intros H. unfold call, load, mbind, Exec_bind. rewrite H.
  by destruct (impl (mp c)).
Qed.

Lemma res_Set_to_string res z m :
  res_valid res m →
  res_Set res (to_string z) m = Returns true (assign res (mkBignum z) m).
Proof.
  intros [c H]. unfold res_Set, load, mbind, Exec_bind, Bignum.Set_.
  by rewrite H, of_string_to_string.
Qed.

Lemma native1_eq f impl i res m a c :
  bn m !! i = Some a → deref res m = Some c →
  native1 f impl i res m =
    Returns (impl (mp a) (mp c)).1
      (logged (mkCall f [mp a] (impl (mp a) (mp c)).1 (Some (impl (mp a) (mp c)).2))
              (assign res (mkBignum (impl (mp a) (mp c)).2) m)).
Proof.
  intros Ha Hc. unfold native1, mbind, Exec_bind.
  rewrite (operand_eq _ _ _ Ha). by apply call_eq.
Qed.

Lemma native2_eq f impl i j res m a b c :
  bn m !! i = Some a → bn m !! j = Some b → deref res m = Some c →
  native2 f impl i j res m =
    Returns (impl (mp a) (mp b) (mp c)).1
      (logged (mkCall f [mp a; mp b] (impl (mp a) (mp b) (mp c)).1
                      (Some (impl (mp a) (mp b) (mp c)).2))
              (assign res (mkBignum (impl (mp a) (mp b) (mp c)).2) m)).
Proof.
  intros Ha Hb Hc. unfold native2, mbind, Exec_bind.
  rewrite (operand_eq _ _ _ Ha), (operand_eq _ _ _ Hb). by apply call_eq.
Qed.

Lemma native3_eq f impl i j k res m a b d c :
  bn m !! i = Some a → bn m !! j = Some b → bn m !! k = Some d →
  deref res m = Some c →
  native3 f impl i j k res m =
    Returns (impl (mp a) (mp b) (mp d) (mp c)).1
      (logged (mkCall f [mp a; mp b; mp d] (impl (mp a) (mp b) (mp d) (mp c)).1
                      (Some (impl (mp a) (mp b) (mp d) (mp c)).2))
              (assign res (mkBignum (impl (mp a) (mp b) (mp d) (mp c)).2) m)).
Proof.
  intros Ha Hb Hd Hc. unfold native3, mbind, Exec_bind.
  rewrite (operand_eq _ _ _ Ha), (operand_eq _ _ _ Hb), (operand_eq _ _ _ Hd).
  by apply call_eq.
Qed.

(** The check of a status, as one expression. *)
Lemma CF_CHECK_EQ_status (e : Exec mp_err) m v m' :
  e m = Returns v m' →
  CF_CHECK_EQ e MP_OKAY (mret false) (mret true) m =
    Returns (bool_decide (v = MP_OKAY)) m'.
Proof.
  intros H. unfold CF_CHECK_EQ, mbind, Exec_bind. rewrite H.
  destruct (decide (v = MP_OKAY)) as [->|Hne].
  - done.
  - rewrite bool_decide_true, bool_decide_false; done.
Qed.

Lemma CF_CHECK_EQ_oob {A} (e : Exec mp_err) m (k1 k2 : Exec A) :
  e m = OutOfBounds → CF_CHECK_EQ e MP_OKAY k1 k2 m = OutOfBounds.
Proof. intros H. unfold CF_CHECK_EQ, mbind, Exec_bind. by rewrite H. Qed.

Lemma operand_exists (m : Machine) (i n : nat) :
  (n ≤ length (bn m))%nat → (i < n)%nat → ∃ b, bn m !! i = Some b.
Proof. intros Hn Hi. apply lookup_lt_is_Some_2. lia. Qed.

(** A plain operation is one logged call whose output goes to [res]. *)
Lemma Run_plain op res m c :
  plain op = true → (arity op ≤ length (bn m))%nat → deref res m = Some c →
  ∃ args e v,
    Run B op res m =
      Returns (bool_decide (e = MP_OKAY))
        (logged (mkCall (routine op) args e (Some v)) (assign res (mkBignum v) m)).
Proof.
  intros Hp Hn Hc.
  destruct op; try discriminate Hp; simpl in Hn;
    destruct (operand_exists m 0 _ Hn) as [a0 H0]; try lia;
    try (destruct (operand_exists m 1 _ Hn) as [a1 H1]; [lia|]);
    try (destruct (operand_exists m 2 _ Hn) as [a2 H2]; [lia|]);
    do 3 eexists;
    apply CF_CHECK_EQ_status;
    first [ by eapply native3_eq | by eapply native2_eq | by eapply native1_eq ].
Qed.

Ltac open_ExpMod Hb Hz :=
  unfold ExpMod.Run, native_zero, native_cmp, record, mbind, Exec_bind;
  unfold operand; simpl; rewrite Hb; simpl;
  unfold base_is_zero in Hz;
  change (mkMachine (ds ?m) (bn ?m) (res_own ?m)
            (mkCall n_cmp [?a; ?b] _ None :: ?z :: log ?m))
    with (logged (cmp_call B a b) (logged (zero_call B) m)).

Lemma ExpMod_Run_zero res m base :
  bn m !! 0%nat = Some base → base_is_zero B base →
  ExpMod.Run B res m =
    Returns false
      (logged (cmp_call B (mp_zero B 0) (mp base)) (logged (zero_call B) m)).
Proof.
  intros Hb Hz. open_ExpMod Hb Hz. by case_bool_decide.
Qed.

Lemma ExpMod_Run_nonzero res m base e md c :
  bn m !! 0%nat = Some base → bn m !! 1%nat = Some e → bn m !! 2%nat = Some md →
  deref res m = Some c → ¬ base_is_zero B base →
  ExpMod.Run B res m =
    let r := mp_exptmod B (mp base) (mp e) (mp md) (mp c) in
    Returns (bool_decide (r.1 = MP_OKAY))
      (logged (mkCall n_exptmod [mp base; mp e; mp md] r.1 (Some r.2))
        (assign res (mkBignum r.2)
          (logged (cmp_call B (mp_zero B 0) (mp base))
             (logged (zero_call B) m)))).
Proof.
  intros Hb He Hm Hc Hz. open_ExpMod Hb Hz.
  case_bool_decide; [done|].
  apply CF_CHECK_EQ_status.
  by apply native3_eq; [..| rewrite !deref_logged].
Qed.

Lemma ExpMod_Run_short m res base :
  bn m !! 0%nat = Some base → ¬ base_is_zero B base →
  (length (bn m) < 3)%nat → ExpMod.Run B res m = OutOfBounds.
Proof.
  intros Hb Hz Hn. open_ExpMod Hb Hz.
  case_bool_decide; [done|].
  apply CF_CHECK_EQ_oob.
  unfold native3, mbind, Exec_bind.
  set (m' := logged _ _).
  rewrite (operand_eq 0 m' base Hb).
  destruct (bn m !! 1%nat) as [e|] eqn:H1.
  - rewrite (operand_eq 1 m' e H1), operand_oob; [done|].
    apply lookup_ge_None_2. simpl. lia.
  - by rewrite operand_oob.
Qed.

Lemma Cmp_Run_eq res m a b :
  bn m !! 0%nat = Some a → bn m !! 1%nat = Some b → res_valid res m →
  Cmp.Run B res m =
    Returns true
      (assign res (mkBignum (mp_cmp B (mp a) (mp b)))
         (logged (cmp_call B (mp a) (mp b)) m)).
Proof.
  intros Ha Hb Hr. unfold Cmp.Run, mbind, Exec_bind.
  rewrite (operand_eq _ _ _ Ha), (operand_eq _ _ _ Hb).
  unfold native_cmp, record, mbind, Exec_bind.
  change (mkMachine (ds m) (bn m) (res_own m) (?c :: log m)) with (logged c m).
  unfold mret, Exec_ret; cbv beta iota.
  rewrite res_Set_to_string; [done | by apply res_valid_logged].
Qed.

Lemma IsEven_Run_eq res m a :
  bn m !! 0%nat = Some a → res_valid res m →
  IsEven.Run B res m =
    Returns true
      (assign res (mkBignum (bit (mp_iseven B (mp a))))
         (logged (mkCall n_iseven [mp a] (mp_iseven B (mp a)) None) m)).
Proof.
  intros Ha Hr. unfold IsEven.Run, mbind, Exec_bind.
  rewrite (operand_eq _ _ _ Ha).
  unfold native_iseven, record, mbind, Exec_bind.
  change (mkMachine (ds m) (bn m) (res_own m) (?c :: log m)) with (logged c m).
  unfold mret, Exec_ret; cbv beta iota.
  change (if truthy ?p then 1 else 0) with (bit p).
  rewrite res_Set_to_string; [done | by apply res_valid_logged].
Qed.

Lemma IsOdd_Run_eq res m a :
  bn m !! 0%nat = Some a → res_valid res m →
  IsOdd.Run B res m =
    Returns true
      (assign res (mkBignum (bit (mp_isodd B (mp a))))
         (logged (mkCall n_isodd [mp a] (mp_isodd B (mp a)) None) m)).
Proof.
  intros Ha Hr. unfold IsOdd.Run, mbind, Exec_bind.
  rewrite (operand_eq _ _ _ Ha).
  unfold native_isodd, record, mbind, Exec_bind.
  change (mkMachine (ds m) (bn m) (res_own m) (?c :: log m)) with (logged c m).
  unfold mret, Exec_ret; cbv beta iota.
  change (if truthy ?p then 1 else 0) with (bit p).
  rewrite res_Set_to_string; [done | by apply res_valid_logged].
Qed.

End Execution.

(** ** Frame lemmas *)

Lemma frame_refl res m : frame res m m.
Proof. repeat split; try done. by exists []. Qed.

Lemma frame_trans res m1 m2 m3 : frame res m1 m2 → frame res m2 m3 → frame res m1 m3.
Proof.
  intros (Hd & Hl & Hb & Hr & cs & Hc) (Hd' & Hl' & Hb' & Hr' & cs' & Hc').
  repeat split.
  - congruence.
  - congruence.
  - intros j Hj. rewrite Hb', Hb; done.
  - intros Hj. rewrite Hr', Hr; done.
  - exists (cs' ++ cs). rewrite Hc', Hc. by rewrite app_assoc.
Qed.

Section Keeps.
Variable res : ResRef.

Lemma keeps_ret {A} (a : A) : keeps (frame res) (mret a).
Proof. intros m a' m'. unfold mret, Exec_ret. intros [= _ <-]. apply frame_refl. Qed.

Lemma keeps_bind {A C} (e : Exec A) (k : A → Exec C) :
keeps (frame res) e → (∀ a, keeps (frame res) (k a)) →
keeps (frame res) (e ≫= k).
Proof.
intros He Hk m c m'. unfold mbind, Exec_bind.
destruct (e m) as [a m1|] eqn:E; [|done].
intros H. eapply frame_trans; [by eapply He | by eapply Hk].
Qed.

Lemma keeps_operand i : keeps (frame res) (operand i).
Proof.
intros m a m'. unfold operand. destruct (bn m !! i); [|done].
intros [= _ <-]. apply frame_refl.
Qed.

Lemma keeps_load : keeps (frame res) (load res).
Proof.
intros m a m'. unfold load. destruct (deref res m); [|done].
intros [= _ <-]. apply frame_refl.
Qed.

Lemma keeps_store b : keeps (frame res) (store res b).
Proof.
intros m a m'. unfold store. intros H; simplify_eq.
destruct res as [|i]; simpl; (split; [|split; [|split; [|split]]]); simpl.
all: try done.
- by exists [].
- apply length_insert.
- intros j Hj. apply list_lookup_insert_ne. congruence.
- by exists [].
Qed.

Lemma keeps_record c : keeps (frame res) (record c).
Proof.
intros m a m'. unfold record. intros H; simplify_eq. repeat split; try done. by exists [c].
Qed.

Lemma keeps_if {A} (b : bool) (e1 e2 : Exec A) :
keeps (frame res) e1 → keeps (frame res) e2 →
keeps (frame res) (if b then e1 else e2).
Proof. by destruct b. Qed.

Lemma keeps_call f args impl : keeps (frame res) (call f args impl res).
Proof.
unfold call. apply keeps_bind; [apply keeps_load|]. intros c.
destruct (impl (mp c)) as [e v].
repeat (apply keeps_bind; [first [apply keeps_store | apply keeps_record]|intros ?]).
apply keeps_ret.
Qed.

Lemma keeps_res_Set s : keeps (frame res) (res_Set res s).
Proof.
unfold res_Set. apply keeps_bind; [apply keeps_load|]. intros c.
destruct (Bignum.Set_ s c) as [ok b'].
apply keeps_bind; [apply keeps_store|intros ?]. apply keeps_ret.
Qed.

Ltac keeps_step :=
first
  [ apply keeps_ret | apply keeps_operand | apply keeps_call
  | apply keeps_res_Set | apply keeps_record | apply keeps_if
  | apply keeps_bind; [|intros ?] ].

Lemma keeps_Run B op : keeps (frame res) (Run B op res).
Proof.
destruct op; simpl;
  unfold Add.Run, Sub.Run, Mul.Run, Div.Run, Sqr.Run, Mod.Run, ExpMod.Run,
    GCD.Run, AddMod.Run, SubMod.Run, MulMod.Run, SqrMod.Run, InvMod.Run,
    LCM.Run, Cmp.Run, Abs.Run, Neg.Run, IsEven.Run, IsOdd.Run,
    CF_CHECK_EQ, native1, native2, native3,
    native_zero, native_cmp, native_iseven, native_isodd;
  cbv zeta; repeat keeps_step.
Qed.

End Keeps.

(** ** Blindness to the decision source *)

Lemma blind_ret {A} (a : A) : ds_blind (mret a).
Proof. done. Qed.

Lemma blind_bind {A C} (e : Exec A) (k : A → Exec C) :
  ds_blind e → (∀ a, ds_blind (k a)) → ds_blind (e ≫= k).
Proof.
  intros He Hk d m. unfold mbind, Exec_bind. rewrite He.
  destruct (e m) as [a m1|]; simpl; [apply Hk | done].
Qed.

Lemma blind_operand i : ds_blind (operand i).
Proof. intros d m. unfold operand. simpl. by destruct (bn m !! i). Qed.

Lemma blind_load res : ds_blind (load res).
Proof.
  intros d m. unfold load.
  replace (deref res (with_ds d m)) with (deref res m) by (by destruct res).
  by destruct (deref res m).
Qed.

Lemma blind_store res b : ds_blind (store res b).
Proof. intros d m. by destruct res. Qed.

Lemma blind_record c : ds_blind (record c).
Proof. done. Qed.

Lemma blind_if {A} (b : bool) (e1 e2 : Exec A) :
  ds_blind e1 → ds_blind e2 → ds_blind (if b then e1 else e2).
Proof. by destruct b. Qed.

Lemma blind_call f args impl res : ds_blind (call f args impl res).
Proof.
  unfold call. apply blind_bind; [apply blind_load|]. intros c.
  destruct (impl (mp c)) as [e v].
  repeat (apply blind_bind; [first [apply blind_store | apply blind_record]|intros ?]).
  apply blind_ret.
Qed.

Lemma blind_res_Set res s : ds_blind (res_Set res s).
Proof.
  unfold res_Set. apply blind_bind; [apply blind_load|]. intros c.
  destruct (Bignum.Set_ s c) as [ok b'].
  apply blind_bind; [apply blind_store|intros ?]. apply blind_ret.
Qed.

Ltac blind_step :=
  first
    [ apply blind_ret | apply blind_operand | apply blind_call
    | apply blind_res_Set | apply blind_record | apply blind_if
    | apply blind_bind; [|intros ?] ].

Lemma blind_Run B op res : ds_blind (Run B op res).
Proof.
  destruct op; simpl;
    unfold Add.Run, Sub.Run, Mul.Run, Div.Run, Sqr.Run, Mod.Run, ExpMod.Run,
      GCD.Run, AddMod.Run, SubMod.Run, MulMod.Run, SqrMod.Run, InvMod.Run,
      LCM.Run, Cmp.Run, Abs.Run, Neg.Run, IsEven.Run, IsOdd.Run,
      CF_CHECK_EQ, native1, native2, native3,
      native_zero, native_cmp, native_iseven, native_isodd;
    cbv zeta; repeat blind_step.
Qed.

(** ** The exact backend has the assumed properties *)

Lemma Exact_zero_correct : zero_correct Exact.backend.
Proof. done. Qed.

Lemma Exact_cmp_correct : cmp_correct Exact.backend.
Proof. done. Qed.

Lemma Exact_parity_correct : parity_correct Exact.backend.
Proof.
  intros a. simpl. unfold Exact.iseven, Exact.isodd.
  rewrite <- Z.negb_odd. destruct (Z.odd a); simpl; split; split; done.
Qed.

Lemma Exact_div_rejects_zero : div_rejects_zero Exact.backend.
Proof. intros a c. simpl. unfold Exact.div. simpl. done. Qed.

Lemma Exact_sqr_correct : sqr_correct Exact.backend.
Proof. intros a c v. simpl. unfold Exact.sqr, Exact.ok. congruence. Qed.

Lemma Exact_mul_correct : mul_correct Exact.backend.
Proof. intros a b c v. simpl. unfold Exact.mul, Exact.ok. congruence. Qed.

(** * The claims *)

(** ** ExpMod with a zero base *)

Lemma zero_base_is_zero B base :
  zero_correct B → cmp_correct B → mp base = 0 → base_is_zero B base.
Proof.
  intros Hz Hc H0. unfold base_is_zero. rewrite Hz, Hc, H0. done.
Qed.

(** C1. When the base [bn[0]] is numerically zero, [ExpMod::Run] returns
    false and the calls it has added to the log are [mp_zero] and [mp_cmp]
    only: [mp_exptmod] is not invoked.  Nothing is assumed of the exponent
    and the modulus, not even that they are there. *)
Theorem ExpMod_zero_base_fails (B : Backend) (res : ResRef) (m : Machine) (base : Bignum) :
  zero_correct B → cmp_correct B →
  bn m !! 0%nat = Some base → mp base = 0 →
  ∃ m' cs,
    Run B ExpMod res m = Returns false m' ∧
    log m' = cs ++ log m ∧
    callee <$> cs = [n_cmp; n_zero] ∧
    ∀ c, c ∈ cs → callee c ≠ n_exptmod.
Proof.
  intros Hz Hc Hb H0.
  eexists _, [_; _]. split; [|split; [|split]].
  - simpl. apply ExpMod_Run_zero; [done|]. by apply zero_base_is_zero.
  - done.
  - done.
  - intros c Hin. apply elem_of_cons in Hin as [->|Hin]; [done|].
    apply elem_of_cons in Hin as [->|Hin]; [done|].
    by apply elem_of_nil in Hin.
Qed.

Lemma ExpMod_zero_base_fails_witness :
  ∃ m' cs,
    Run Exact.backend ExpMod ResOwn
      (start [] [mkBignum 0; mkBignum (-3); mkBignum 0] (mkBignum 7)) = Returns false m' ∧
    log m' = cs ++ [] ∧
    callee <$> cs = [n_cmp; n_zero] ∧
    ∀ c, c ∈ cs → callee c ≠ n_exptmod.
Proof.
  apply (ExpMod_zero_base_fails Exact.backend ResOwn
           (start [] [mkBignum 0; mkBignum (-3); mkBignum 0] (mkBignum 7)) (mkBignum 0)).
  - exact Exact_zero_correct.
  - exact Exact_cmp_correct.
  - reflexivity.
  - reflexivity.
Defined.

(** C9. On the path where the comparison of the local zero with [bn[0]]
    answers 0, [ExpMod::Run] returns false with the operand vector, the
    result object and the decision source exactly as they were; whatever
    [res] is bound to reads the same before and after. *)
Theorem ExpMod_short_circuit_leaves_result (B : Backend) (res : ResRef) (m : Machine)
    (base : Bignum) :
  bn m !! 0%nat = Some base → base_is_zero B base →
  ∃ m',
    Run B ExpMod res m = Returns false m' ∧
    deref res m' = deref res m ∧
    bn m' = bn m ∧ res_own m' = res_own m ∧ ds m' = ds m ∧
    ∃ cs, log m' = cs ++ log m ∧ callee <$> cs = [n_cmp; n_zero].
Proof.
  intros Hb Hz. eexists. split.
  - simpl. by apply ExpMod_Run_zero.
  - rewrite !deref_logged. repeat split. by eexists [_; _].
Qed.

Lemma ExpMod_short_circuit_leaves_result_witness :
  ∃ m',
    Run Exact.backend ExpMod (ResOperand 1)
      (start [] [mkBignum 0; mkBignum 5; mkBignum 9] (mkBignum 7)) = Returns false m' ∧
    deref (ResOperand 1) m' = Some (mkBignum 5) ∧
    bn m' = [mkBignum 0; mkBignum 5; mkBignum 9] ∧ res_own m' = mkBignum 7 ∧ ds m' = [] ∧
    ∃ cs, log m' = cs ++ [] ∧ callee <$> cs = [n_cmp; n_zero].
Proof.
  apply (ExpMod_short_circuit_leaves_result Exact.backend (ResOperand 1)
           (start [] [mkBignum 0; mkBignum 5; mkBignum 9] (mkBignum 7)) (mkBignum 0)).
  - reflexivity.
  - reflexivity.
Defined.

(** ** The boolean and the status *)

Lemma succeeded_status f args e v :
  has_status f = true → (succeeded (mkCall f args e v) ↔ e = MP_OKAY).
Proof. unfold succeeded. simpl. intros ->. naive_solver. Qed.

Lemma has_status_plain op : plain op = true → has_status (routine op) = true.
Proof. by destruct op. Qed.

Lemma value_of_plain op c : plain op = true → value_of op c = output c.
Proof. by destruct op. Qed.

(** The boolean against the log: [Run] returns true exactly when a call of
    the operation's routine is logged that did not report a failure, and
    such a call logs what the result then holds. *)
Lemma Run_true_iff_logged_call (B : Backend) (op : Operation) (res : ResRef)
    (m : Machine) :
  (arity op ≤ length (bn m))%nat → res_valid res m →
  ∃ ok m' cs,
    Run B op res m = Returns ok m' ∧
    log m' = cs ++ log m ∧
    (ok = true ↔ ∃ c, c ∈ cs ∧ callee c = routine op ∧ succeeded c) ∧
    (∀ c, c ∈ cs → callee c = routine op → succeeded c →
          mp <$> deref res m' = value_of op c).
Proof.
  intros Hn [r Hr].
  destruct (plain op) eqn:Hp.
  - destruct (Run_plain B op res m r Hp Hn Hr) as (args & e & v & ->).
    eexists _, _, [_]. split; [done|]. split; [by destruct res|].
    pose proof (has_status_plain op Hp) as Hs.
    split.
    + rewrite bool_decide_eq_true. split.
      * intros ->. eexists. split; [apply list_elem_of_here|]. split; [done|].
        by apply succeeded_status.
      * intros (c & Hin & _ & Hc). apply list_elem_of_singleton in Hin as ->.
        by apply succeeded_status in Hc.
    + intros c Hin _ _. apply list_elem_of_singleton in Hin as ->.
      rewrite deref_logged, deref_assign by (by eexists).
      by rewrite value_of_plain.
  - destruct op; try discriminate Hp; simpl in Hn.
    + (* ExpMod *)
      destruct (operand_exists m 0 _ Hn) as [a0 H0]; [lia|].
      destruct (operand_exists m 1 _ Hn) as [a1 H1]; [lia|].
      destruct (operand_exists m 2 _ Hn) as [a2 H2]; [lia|].
      destruct (decide (base_is_zero B a0)) as [Hz|Hz].
      * eexists _, _, [_; _]. split; [by apply ExpMod_Run_zero|].
        split; [done|]. split.
        -- split; [done|]. intros (c & Hin & Hc & _).
           apply elem_of_cons in Hin as [->|Hin]; [done|].
           apply list_elem_of_singleton in Hin as ->. done.
        -- intros c Hin Hc _.
           apply elem_of_cons in Hin as [->|Hin]; [done|].
           apply list_elem_of_singleton in Hin as ->. done.
      * eexists _, _, [_; _; _].
        split; [by eapply ExpMod_Run_nonzero|]. cbv zeta.
        split; [by destruct res|]. split.
        -- rewrite bool_decide_eq_true. split.
           ++ intros He. eexists. split; [apply list_elem_of_here|].
              split; [done|]. by apply succeeded_status.
           ++ intros (c & Hin & Hc & Hs).
              apply elem_of_cons in Hin as [->|Hin];
                [by apply succeeded_status in Hs|].
              apply elem_of_cons in Hin as [->|Hin]; [done|].
              apply list_elem_of_singleton in Hin as ->. done.
        -- intros c Hin Hc _.
           apply elem_of_cons in Hin as [->|Hin].
           ++ rewrite deref_logged, deref_assign; [done|].
              apply res_valid_logged, res_valid_logged. by eexists.
           ++ apply elem_of_cons in Hin as [->|Hin]; [done|].
              apply list_elem_of_singleton in Hin as ->. done.
    + (* Cmp *)
      destruct (operand_exists m 0 _ Hn) as [a0 H0]; [lia|].
      destruct (operand_exists m 1 _ Hn) as [a1 H1]; [lia|].
      eexists _, _, [_]. split; [by apply Cmp_Run_eq; [..|eexists]|].
      split; [by destruct res|]. split.
      * split; [|done]. intros _. eexists. split; [apply list_elem_of_here|].
        split; [done|]. unfold succeeded. simpl. done.
      * intros c Hin _ _. apply list_elem_of_singleton in Hin as ->.
        rewrite deref_assign; [done|]. apply res_valid_logged. by eexists.
    + (* IsEven *)
      destruct (operand_exists m 0 _ Hn) as [a0 H0]; [lia|].
      eexists _, _, [_]. split; [by apply IsEven_Run_eq; [..|eexists]|].
      split; [by destruct res|]. split.
      * split; [|done]. intros _. eexists. split; [apply list_elem_of_here|].
        split; [done|]. unfold succeeded. simpl. done.
      * intros c Hin _ _. apply list_elem_of_singleton in Hin as ->.
        rewrite deref_assign; [done|]. apply res_valid_logged. by eexists.
    + (* IsOdd *)
      destruct (operand_exists m 0 _ Hn) as [a0 H0]; [lia|].
      eexists _, _, [_]. split; [by apply IsOdd_Run_eq; [..|eexists]|].
      split; [by destruct res|]. split.
      * split; [|done]. intros _. eexists. split; [apply list_elem_of_here|].
        split; [done|]. unfold succeeded. simpl. done.
      * intros c Hin _ _. apply list_elem_of_singleton in Hin as ->.
        rewrite deref_assign; [done|]. apply res_valid_logged. by eexists.
Qed.

(** The boolean and the result against the backend's own functions. *)
Lemma Run_native (B : Backend) (op : Operation) (res : ResRef) (m : Machine) (c : Bignum) :
  (arity op ≤ length (bn m))%nat → deref res m = Some c →
  ∃ m',
    match native_call B op (mp <$> bn m) (mp c) with
    | Status st v =>
        Run B op res m = Returns (bool_decide (st = MP_OKAY)) m' ∧
        deref res m' = Some (mkBignum v)
    | Answer z =>
        Run B op res m = Returns true m' ∧ deref res m' = Some (mkBignum z)
    | NoCall => Run B op res m = Returns false m'
    end.
Proof.
  intros Hn Hc.
  assert (Hr : res_valid res m) by (by eexists).
  destruct (bn m) as [|a0 [|a1 [|a2 l]]] eqn:E;
    destruct op; simpl in Hn; try lia; simpl.
  all: try (eexists; split;
            [ apply CF_CHECK_EQ_status;
              first [ by eapply native3_eq; [rewrite E..|]
                    | by eapply native2_eq; [rewrite E..|]
                    | by eapply native1_eq; [rewrite E|] ]
            | rewrite deref_logged; by apply deref_assign ]).
  all: try (eexists; split;
            [ first [ apply Cmp_Run_eq | apply IsEven_Run_eq | apply IsOdd_Run_eq ];
              first [ by rewrite E | done ]
            | apply deref_assign; by apply res_valid_logged ]).
  all: case_bool_decide as Hz.
  all: try (eexists; apply (ExpMod_Run_zero B res m a0); [by rewrite E | done]).
  all: eexists;
    rewrite (ExpMod_Run_nonzero B res m a0 a1 a2 c) by (by rewrite E || done);
    cbv zeta; split; [done|];
    rewrite deref_logged; apply deref_assign; by apply res_valid_logged, res_valid_logged.
Qed.

(** C2. Given at least the operands it indexes and a result reference that
    is bound, [Run] returns normally (no fault, nothing thrown).  It
    returns true exactly when the backend call of the operation reported
    success: the operation's own routine, applied to the leading operands
    in their order, answered [MP_OKAY] (the predicates [mp_cmp],
    [mp_iseven], [mp_isodd] have no failure to report), and then the result
    object holds the value that call produced, the output of the routine or
    the number whose decimal text encodes the answer.  On the short-circuit
    path of ExpMod [mp_exptmod] is not called, so none reports success, and
    [Run] returns false.  The log tells the same: true exactly when a call
    of the routine that did not fail is logged. *)
Theorem Run_true_iff_backend_succeeded (B : Backend) (op : Operation) (res : ResRef)
    (m : Machine) :
  (arity op ≤ length (bn m))%nat → res_valid res m →
  ∃ ok m' cs c,
    Run B op res m = Returns ok m' ∧
    deref res m = Some c ∧
    (ok = true ↔ reports_success (native_call B op (mp <$> bn m) (mp c))) ∧
    (ok = true →
     mp <$> deref res m' = left_value (native_call B op (mp <$> bn m) (mp c))) ∧
    log m' = cs ++ log m ∧
    (ok = true ↔ ∃ x, x ∈ cs ∧ callee x = routine op ∧ succeeded x) ∧
    (∀ x, x ∈ cs → callee x = routine op → succeeded x →
          mp <$> deref res m' = value_of op x).
Proof.
  intros Hn Hr.
  destruct (Run_true_iff_logged_call B op res m Hn Hr) as (ok & m' & cs & E & Hl & Hok & Hv).
  destruct Hr as [c Hc].
  exists ok, m', cs, c. split; [done|]. split; [done|].
  destruct (Run_native B op res m c Hn Hc) as [n Hn'].
  assert (Hnew :
    (ok = true ↔ reports_success (native_call B op (mp <$> bn m) (mp c))) ∧
    (ok = true →
     mp <$> deref res m' = left_value (native_call B op (mp <$> bn m) (mp c)))).
  { destruct (native_call B op (mp <$> bn m) (mp c)) as [st v|z|]; simpl.
    - destruct Hn' as [E' Hd]. rewrite E in E'. injection E' as E1 E2. subst n.
      split.
      + rewrite E1. apply bool_decide_eq_true.
      + intros _. by rewrite Hd.
    - destruct Hn' as [E' Hd]. rewrite E in E'. injection E' as E1 E2. subst n.
      split; [done|]. intros _. by rewrite Hd.
    - rewrite E in Hn'. injection Hn' as E1 E2. by subst ok. }
  destruct Hnew as [H1 H2].
  split; [exact H1|]. split; [exact H2|]. split; [exact Hl|]. split; [exact Hok|exact Hv].
Qed.

Lemma Run_true_iff_backend_succeeded_witness :
  let m := start [] [Bignum_of_text "3"; Bignum_of_text "7"] Bignum.new in
  ((arity InvMod ≤ length (bn m))%nat ∧ res_valid ResOwn m) ∧
  ∃ ok m' cs c,
    Run Exact.backend InvMod ResOwn m = Returns ok m' ∧
    deref ResOwn m = Some c ∧
    (ok = true ↔ reports_success (native_call Exact.backend InvMod (mp <$> bn m) (mp c))) ∧
    (ok = true →
     mp <$> deref ResOwn m' =
       left_value (native_call Exact.backend InvMod (mp <$> bn m) (mp c))) ∧
    log m' = cs ++ log m ∧
    (ok = true ↔ ∃ x, x ∈ cs ∧ callee x = routine InvMod ∧ succeeded x) ∧
    (∀ x, x ∈ cs → callee x = routine InvMod → succeeded x →
          mp <$> deref ResOwn m' = value_of InvMod x).
Proof.
  intros m.
  assert (Hn : (arity InvMod ≤ length (bn m))%nat) by (simpl; lia).
  assert (Hr : res_valid ResOwn m) by (by eexists).
  split; [by split|].
  exact (Run_true_iff_backend_succeeded Exact.backend InvMod ResOwn m Hn Hr).
Defined.

(** ** Operands *)

(** C3. No operand is mutated by [Run].  With the result the object of its
    own that the caller owns, the operand vector after the call is the
    vector before it, whether [Run] returns true or false; and wherever
    [res] is bound, every element of the vector other than the one [res]
    is bound to holds the value it held before. *)
Theorem Run_preserves_operands (B : Backend) (op : Operation) (res : ResRef)
    (m : Machine) (ok : bool) (m' : Machine) :
  Run B op res m = Returns ok m' →
  (∀ j, res ≠ ResOperand j → bn m' !! j = bn m !! j) ∧
  (res = ResOwn → bn m' = bn m).
Proof.
  intros H. apply keeps_Run in H as (_ & Hl & Hb & _).
  split; [done|]. intros ->. apply list_eq. intros j. by apply Hb.
Qed.

Lemma Run_preserves_operands_witness :
  let m := start [] [mkBignum 10; mkBignum 0] (mkBignum 7) in
  let m' := mkMachine [] [mkBignum 10; mkBignum 0] (mkBignum 7)
              [mkCall n_div [10; 0] MP_RANGE (Some 7)] in
  Run Exact.backend Div ResOwn m = Returns false m' ∧
  (∀ j, ResOwn ≠ ResOperand j → bn m' !! j = bn m !! j) ∧
  (ResOwn = ResOwn → bn m' = bn m).
Proof.
  intros m m'. split; [reflexivity|].
  exact (Run_preserves_operands Exact.backend Div ResOwn m false m' eq_refl).
Defined.

(** ** The decision source *)

Lemma same_but_ds_with_ds m1 m2 : same_but_ds m1 m2 → m2 = with_ds (ds m2) m1.
Proof.
  destruct m1, m2. unfold same_but_ds, with_ds. simpl.
  intros (-> & -> & ->). done.
Qed.

(** C8. Two calls of the same operation with the same result reference, on
    states that agree on the operands, the result object and the log and
    differ at most in the decision source, end alike: both fault, or both
    return the same boolean in states that again agree on everything but
    the decision source, in particular on what [res] is bound to; and each
    decision source is left as it was. *)
Theorem Run_independent_of_ds (B : Backend) (op : Operation) (res : ResRef)
    (m1 m2 : Machine) :
  same_but_ds m1 m2 →
  match Run B op res m1, Run B op res m2 with
  | Returns ok1 m1', Returns ok2 m2' =>
      ok1 = ok2 ∧ deref res m1' = deref res m2' ∧ same_but_ds m1' m2' ∧
      ds m1' = ds m1 ∧ ds m2' = ds m2
  | OutOfBounds, OutOfBounds => True
  | _, _ => False
  end.
Proof.
  intros H. rewrite (same_but_ds_with_ds m1 m2 H), blind_Run.
  destruct (Run B op res m1) as [ok m1'|] eqn:E; simpl; [|done].
  apply keeps_Run in E as (Hd & _).
  repeat split; done.
Qed.

Lemma Run_independent_of_ds_witness :
  let m1 := start [Byte.x00; Byte.x2a] [mkBignum 6; mkBignum 7] (mkBignum 1) in
  let m2 := start [Byte.xff] [mkBignum 6; mkBignum 7] (mkBignum 1) in
  same_but_ds m1 m2 ∧
  match Run Exact.backend Mul ResOwn m1, Run Exact.backend Mul ResOwn m2 with
  | Returns ok1 m1', Returns ok2 m2' =>
      ok1 = ok2 ∧ deref ResOwn m1' = deref ResOwn m2' ∧ same_but_ds m1' m2' ∧
      ds m1' = ds m1 ∧ ds m2' = ds m2
  | OutOfBounds, OutOfBounds => True
  | _, _ => False
  end.
Proof.
  intros m1 m2.
  assert (H : same_but_ds m1 m2) by (repeat split).
  split; [exact H|].
  exact (Run_independent_of_ds Exact.backend Mul ResOwn m1 m2 H).
Defined.

(** ** Comparison and parity *)

Lemma cmp_correct_sgn B a b : cmp_correct B → mp_cmp B a b = Z.sgn (a - b).
Proof.
  intros ->. unfold MP_LT, MP_EQ, MP_GT.
  destruct (Z.compare_spec a b); [subst; by rewrite Z.sub_diag | |].
  - rewrite Z.sgn_neg; lia.
  - rewrite Z.sgn_pos; lia.
Qed.

(** C4. With at least two operands, [Cmp::Run] returns true and leaves in
    the result the number whose decimal text is that of the sign of
    [bn[0] - bn[1]], one of "-1", "0", "1"; for equal operands it is "0",
    and on the operands taken in the other order the result is the
    opposite number, which differs from it when the operands differ. *)
Theorem Cmp_Run_three_way (B : Backend) (res res' : ResRef) (m m' : Machine)
    (a b : Bignum) :
  cmp_correct B →
  bn m !! 0%nat = Some a → bn m !! 1%nat = Some b → res_valid res m →
  bn m' !! 0%nat = Some b → bn m' !! 1%nat = Some a → res_valid res' m' →
  ∃ m1 m2 r1 r2,
    Run B Cmp res m = Returns true m1 ∧ deref res m1 = Some r1 ∧
    Run B Cmp res' m' = Returns true m2 ∧ deref res' m2 = Some r2 ∧
    Bignum.ToString r1 = to_string (Z.sgn (mp a - mp b)) ∧
    (Bignum.ToString r1 = "-1" ∨ Bignum.ToString r1 = "0" ∨ Bignum.ToString r1 = "1")%string ∧
    (mp a = mp b → Bignum.ToString r1 = "0"%string) ∧
    mp r2 = - mp r1 ∧
    (mp a ≠ mp b → mp r1 ≠ 0 ∧ Bignum.ToString r2 ≠ Bignum.ToString r1).
Proof.
  intros Hc Ha Hb Hr Hb' Ha' Hr'.
  eexists _, _, _, _.
  split; [by apply Cmp_Run_eq|].
  split; [apply deref_assign; by apply res_valid_logged|].
  split; [by apply Cmp_Run_eq|].
  split; [apply deref_assign; by apply res_valid_logged|].
  unfold Bignum.ToString. simpl. rewrite !(cmp_correct_sgn B) by done.
  split; [done|].
  split.
  { destruct (Z.sgn_spec (mp a - mp b)) as [[_ ->]|[[_ ->]|[_ ->]]]; auto. }
  split.
  { intros ->. by rewrite Z.sub_diag. }
  split.
  { rewrite <- Z.sgn_opp. f_equal. lia. }
  intros Hne.
  assert (Z.sgn (mp a - mp b) ≠ 0) as Hs by (rewrite Z.sgn_null_iff; lia).
  split; [done|].
  intros Heq.
  assert (of_string (to_string (Z.sgn (mp b - mp a))) =
          of_string (to_string (Z.sgn (mp a - mp b)))) as Hz by (by rewrite Heq).
  rewrite !of_string_to_string in Hz.
  replace (mp b - mp a) with (- (mp a - mp b)) in Hz by lia.
  rewrite Z.sgn_opp in Hz. simplify_eq. lia.
Qed.

Lemma Cmp_Run_three_way_witness :
  let a := Bignum_of_text "-5" in
  let b := Bignum_of_text "12" in
  let m := start [] [a; b] Bignum.new in
  let m' := start [] [b; a] Bignum.new in
  (cmp_correct Exact.backend ∧
   bn m !! 0%nat = Some a ∧ bn m !! 1%nat = Some b ∧ res_valid ResOwn m ∧
   bn m' !! 0%nat = Some b ∧ bn m' !! 1%nat = Some a ∧ res_valid ResOwn m') ∧
  ∃ m1 m2 r1 r2,
    Run Exact.backend Cmp ResOwn m = Returns true m1 ∧ deref ResOwn m1 = Some r1 ∧
    Run Exact.backend Cmp ResOwn m' = Returns true m2 ∧ deref ResOwn m2 = Some r2 ∧
    Bignum.ToString r1 = to_string (Z.sgn (mp a - mp b)) ∧
    (Bignum.ToString r1 = "-1" ∨ Bignum.ToString r1 = "0" ∨ Bignum.ToString r1 = "1")%string ∧
    (mp a = mp b → Bignum.ToString r1 = "0"%string) ∧
    mp r2 = - mp r1 ∧
    (mp a ≠ mp b → mp r1 ≠ 0 ∧ Bignum.ToString r2 ≠ Bignum.ToString r1).
Proof.
  intros a b m m'.
  assert (H1 : bn m !! 0%nat = Some a) by reflexivity.
  assert (H2 : bn m !! 1%nat = Some b) by reflexivity.
  assert (H3 : res_valid ResOwn m) by (by eexists).
  assert (H4 : bn m' !! 0%nat = Some b) by reflexivity.
  assert (H5 : bn m' !! 1%nat = Some a) by reflexivity.
  assert (H6 : res_valid ResOwn m') by (by eexists).
  split; [by repeat split; try apply Exact_cmp_correct|].
  exact (Cmp_Run_three_way Exact.backend ResOwn ResOwn m m' a b
           Exact_cmp_correct H1 H2 H3 H4 H5 H6).
Defined.

Lemma bit_text p :
  (p ≠ 0 ∧ to_string (bit p) = "1"%string) ∨ (p = 0 ∧ to_string (bit p) = "0"%string).
Proof.
  unfold bit, truthy. case_bool_decide as H; [by left|right].
  split; [|done]. by destruct (decide (p = 0)).
Qed.

(** C5. With at least one operand, [IsEven::Run] and [IsOdd::Run] return
    true, and what they leave in the result depends on [bn[0]] alone, not on
    the state they start from: the text is "1" or "0", it is "1" for
    [IsEven] exactly when [bn[0]] is even, and the two texts differ. *)
Theorem IsEven_IsOdd_Run_complementary (B : Backend) (res res' : ResRef)
    (m m' : Machine) (a : Bignum) :
  parity_correct B →
  bn m !! 0%nat = Some a → res_valid res m →
  bn m' !! 0%nat = Some a → res_valid res' m' →
  ∃ m1 m2 e o,
    Run B IsEven res m = Returns true m1 ∧ deref res m1 = Some e ∧
    Run B IsOdd res' m' = Returns true m2 ∧ deref res' m2 = Some o ∧
    (Bignum.ToString e = "1"%string ↔ Z.even (mp a) = true) ∧
    ((Bignum.ToString e = "1" ∧ Bignum.ToString o = "0") ∨
     (Bignum.ToString e = "0" ∧ Bignum.ToString o = "1"))%string.
Proof.
  intros Hp Ha Hr Ha' Hr'.
  eexists _, _, _, _.
  split; [by apply IsEven_Run_eq|].
  split; [apply deref_assign; by apply res_valid_logged|].
  split; [by apply IsOdd_Run_eq|].
  split; [apply deref_assign; by apply res_valid_logged|].
  unfold Bignum.ToString. cbn [mp].
  destruct (Hp (mp a)) as [He Ho].
  rewrite <- Z.negb_even in Ho.
  destruct (bit_text (mp_iseven B (mp a))) as [[E ->]|[E ->]];
    destruct (bit_text (mp_isodd B (mp a))) as [[O ->]|[O ->]];
    destruct (Z.even (mp a)); simpl in Ho.
  all: intuition (first [congruence | discriminate]).
Qed.

Lemma IsEven_IsOdd_Run_complementary_witness :
  let a := Bignum_of_text "123456789012345678901234567890" in
  let m := start [] [a] (mkBignum 55) in
  let m' := start [] [a] (mkBignum (-3)) in
  (parity_correct Exact.backend ∧
   bn m !! 0%nat = Some a ∧ res_valid ResOwn m ∧
   bn m' !! 0%nat = Some a ∧ res_valid (ResOperand 0) m') ∧
  ∃ m1 m2 e o,
    Run Exact.backend IsEven ResOwn m = Returns true m1 ∧ deref ResOwn m1 = Some e ∧
    Run Exact.backend IsOdd (ResOperand 0) m' = Returns true m2 ∧
    deref (ResOperand 0) m2 = Some o ∧
    (Bignum.ToString e = "1"%string ↔ Z.even (mp a) = true) ∧
    ((Bignum.ToString e = "1" ∧ Bignum.ToString o = "0") ∨
     (Bignum.ToString e = "0" ∧ Bignum.ToString o = "1"))%string.
Proof.
  intros a m m'.
  assert (H1 : bn m !! 0%nat = Some a) by reflexivity.
  assert (H2 : res_valid ResOwn m) by (by eexists).
  assert (H3 : bn m' !! 0%nat = Some a) by reflexivity.
  assert (H4 : res_valid (ResOperand 0) m') by (by eexists).
  split; [by repeat split; try apply Exact_parity_correct|].
  exact (IsEven_IsOdd_Run_complementary Exact.backend ResOwn (ResOperand 0) m m' a
           Exact_parity_correct H1 H2 H3 H4).
Defined.

(** ** Division, squaring, and the arity of SqrMod *)

Lemma CF_CHECK_EQ_inv {A} (e : Exec Z) x (k1 k2 : Exec A) m a m' :
  CF_CHECK_EQ e x k1 k2 m = Returns a m' → ∃ v m1, e m = Returns v m1.
Proof.
  unfold CF_CHECK_EQ, mbind, Exec_bind. destruct (e m) as [v m1|]; [eauto|done].
Qed.

Lemma call_inv f args impl res m e m' :
  call f args impl res m = Returns e m' → ∃ c, deref res m = Some c.
Proof.
  unfold call, load, mbind, Exec_bind. destruct (deref res m); [eauto|done].
Qed.

Lemma native1_inv f impl i res m e m' :
  native1 f impl i res m = Returns e m' →
  ∃ a c, bn m !! i = Some a ∧ deref res m = Some c.
Proof.
  unfold native1, mbind, Exec_bind, operand.
  destruct (bn m !! i) as [a|]; [|done].
  intros [c Hc]%call_inv. eauto.
Qed.

Lemma native2_inv f impl i j res m e m' :
  native2 f impl i j res m = Returns e m' →
  ∃ a b c, bn m !! i = Some a ∧ bn m !! j = Some b ∧ deref res m = Some c.
Proof.
  unfold native2, mbind, Exec_bind, operand.
  destruct (bn m !! i) as [a|]; [|done].
  destruct (bn m !! j) as [b|]; [|done].
  intros [c Hc]%call_inv. eauto 6.
Qed.

(** C6. [Div::Run] is one call of [mp_div] on [bn[0]] and [bn[1]] and
    nothing else (its log entry is the only one added), and it returns false
    exactly when that call reports a status other than [MP_OKAY].  With a
    backend whose division rejects a zero divisor, [Div::Run] on the
    operands set from "10" and "0" returns false. *)
Theorem Div_Run_fails_iff_backend_fails (B : Backend) :
  (∀ res m a b c,
     bn m !! 0%nat = Some a → bn m !! 1%nat = Some b → deref res m = Some c →
     ∃ ok m',
       Run B Div res m = Returns ok m' ∧
       (ok = false ↔ (mp_div B (mp a) (mp b) (mp c)).1 ≠ MP_OKAY) ∧
       ∃ q, log m' =
              [mkCall n_div [mp a; mp b] (mp_div B (mp a) (mp b) (mp c)).1 (Some q)]
              ++ log m) ∧
  (div_rejects_zero B →
   ∀ src r, ∃ m',
     Run B Div ResOwn (start src [Bignum_of_text "10"; Bignum_of_text "0"] r) =
       Returns false m').
Proof.
  assert (Hgen : ∀ res m a b c,
     bn m !! 0%nat = Some a → bn m !! 1%nat = Some b → deref res m = Some c →
     ∃ ok m',
       Run B Div res m = Returns ok m' ∧
       (ok = false ↔ (mp_div B (mp a) (mp b) (mp c)).1 ≠ MP_OKAY) ∧
       ∃ q, log m' =
              [mkCall n_div [mp a; mp b] (mp_div B (mp a) (mp b) (mp c)).1 (Some q)]
              ++ log m).
  { intros res m a b c Ha Hb Hc. eexists _, _. split.
    - simpl. unfold Div.Run. cbv zeta. apply CF_CHECK_EQ_status.
      by apply native2_eq.
    - split.
      + rewrite bool_decide_eq_false. done.
      + eexists. by destruct res. }
  split; [exact Hgen|].
  intros Hdiv src r.
  destruct (Hgen ResOwn (start src [Bignum_of_text "10"; Bignum_of_text "0"] r)
              (Bignum_of_text "10") (Bignum_of_text "0") r eq_refl eq_refl eq_refl)
    as (ok & m' & Hrun & Hok & _).
  exists m'. rewrite Hrun. f_equal. apply Hok. apply Hdiv.
Qed.

Lemma Div_Run_fails_iff_backend_fails_witness :
  div_rejects_zero Exact.backend ∧
  ∃ m',
    Run Exact.backend Div ResOwn
      (start [] [Bignum_of_text "10"; Bignum_of_text "0"] Bignum.new) = Returns false m'.
Proof.
  split; [exact Exact_div_rejects_zero|].
  exact (proj2 (Div_Run_fails_iff_backend_fails Exact.backend)
           Exact_div_rejects_zero [] Bignum.new).
Defined.

(** C7. When [Sqr::Run] on an operand and [Mul::Run] on that operand twice
    both return true, their results are the same value, the square of the
    operand. *)
Theorem Sqr_Run_eq_Mul_Run (B : Backend) (res res' : ResRef) (m m' : Machine)
    (a : Bignum) (m1 m2 : Machine) :
  sqr_correct B → mul_correct B →
  bn m !! 0%nat = Some a →
  bn m' !! 0%nat = Some a → bn m' !! 1%nat = Some a →
  Run B Sqr res m = Returns true m1 →
  Run B Mul res' m' = Returns true m2 →
  deref res m1 = deref res' m2 ∧ deref res m1 = Some (mkBignum (mp a * mp a)).
Proof.
  intros Hs Hm Ha Ha0 Ha1 Hsqr Hmul.
  simpl in Hsqr, Hmul. unfold Sqr.Run in Hsqr. unfold Mul.Run in Hmul.
  cbv zeta in Hsqr, Hmul.
  destruct (CF_CHECK_EQ_inv _ _ _ _ _ _ _ Hsqr) as (v1 & n1 & E1).
  destruct (CF_CHECK_EQ_inv _ _ _ _ _ _ _ Hmul) as (v2 & n2 & E2).
  destruct (native1_inv _ _ _ _ _ _ _ E1) as (x & c & Hx & Hc).
  destruct (native2_inv _ _ _ _ _ _ _ _ E2) as (y & z & c' & Hy & Hz & Hc').
  rewrite (CF_CHECK_EQ_status _ _ _ _ (native1_eq _ _ _ _ _ _ _ Ha Hc)) in Hsqr.
  rewrite (CF_CHECK_EQ_status _ _ _ _ (native2_eq _ _ _ _ _ _ _ _ _ Ha0 Ha1 Hc')) in Hmul.
  injection Hsqr as Hok1 <-. injection Hmul as Hok2 <-.
  apply bool_decide_eq_true in Hok1, Hok2.
  rewrite !deref_logged, !deref_assign by (by eexists).
  destruct (mp_sqr B (mp a) (mp c)) as [e1 s] eqn:Es.
  destruct (mp_mul B (mp a) (mp a) (mp c')) as [e2 p] eqn:Ep.
  simpl in *. subst e1 e2.
  apply Hs in Es. apply Hm in Ep. by subst.
Qed.

Lemma Sqr_Run_eq_Mul_Run_witness :
  let a := Bignum_of_text "-12" in
  let m := start [] [a] Bignum.new in
  let m' := start [] [a; a] (mkBignum 5) in
  let m1 := mkMachine [] [a] (mkBignum 144) [mkCall n_sqr [-12] MP_OKAY (Some 144)] in
  let m2 := mkMachine [] [a; a] (mkBignum 144)
              [mkCall n_mul [-12; -12] MP_OKAY (Some 144)] in
  (sqr_correct Exact.backend ∧ mul_correct Exact.backend ∧
   bn m !! 0%nat = Some a ∧ bn m' !! 0%nat = Some a ∧ bn m' !! 1%nat = Some a ∧
   Run Exact.backend Sqr ResOwn m = Returns true m1 ∧
   Run Exact.backend Mul ResOwn m' = Returns true m2) ∧
  deref ResOwn m1 = deref ResOwn m2 ∧
  deref ResOwn m1 = Some (mkBignum (mp a * mp a)).
Proof.
  intros a m m' m1 m2.
  assert (H1 : bn m !! 0%nat = Some a) by reflexivity.
  assert (H2 : bn m' !! 0%nat = Some a) by reflexivity.
  assert (H3 : bn m' !! 1%nat = Some a) by reflexivity.
  assert (H4 : Run Exact.backend Sqr ResOwn m = Returns true m1) by reflexivity.
  assert (H5 : Run Exact.backend Mul ResOwn m' = Returns true m2) by reflexivity.
  split.
  - repeat split; try done.
    + apply Exact_sqr_correct.
    + apply Exact_mul_correct.
  - exact (Sqr_Run_eq_Mul_Run Exact.backend ResOwn ResOwn m m' a m1 m2
             Exact_sqr_correct Exact_mul_correct H1 H2 H3 H4 H5).
Defined.

(** C10. [SqrMod::Run] indexes [bn[0]] and [bn[1]] and hands both to
    [mp_sqrmod]: with exactly one operand it indexes the vector out of
    bounds, and with a bound result reference it returns if and only if
    there are at least two operands. *)
Theorem SqrMod_Run_needs_two_operands (B : Backend) (res : ResRef) (m : Machine) :
  (length (bn m) = 1%nat → Run B SqrMod res m = OutOfBounds) ∧
  (res_valid res m →
   ((∃ ok m', Run B SqrMod res m = Returns ok m') ↔ (2 ≤ length (bn m))%nat)) ∧
  (∀ ok m', Run B SqrMod res m = Returns ok m' →
     ∃ a b c v,
       bn m !! 0%nat = Some a ∧ bn m !! 1%nat = Some b ∧ deref res m = Some c ∧
       log m' =
         mkCall n_sqrmod [mp a; mp b] (mp_sqrmod B (mp a) (mp b) (mp c)).1 (Some v)
         :: log m).
Proof.
  assert (Hinv : ∀ ok m', Run B SqrMod res m = Returns ok m' →
     ∃ a b c v,
       bn m !! 0%nat = Some a ∧ bn m !! 1%nat = Some b ∧ deref res m = Some c ∧
       log m' =
         mkCall n_sqrmod [mp a; mp b] (mp_sqrmod B (mp a) (mp b) (mp c)).1 (Some v)
         :: log m).
  { intros ok m' H. simpl in H. unfold SqrMod.Run in H. cbv zeta in H.
    destruct (CF_CHECK_EQ_inv _ _ _ _ _ _ _ H) as (v & n & E).
    destruct (native2_inv _ _ _ _ _ _ _ _ E) as (a & b & c & Ha & Hb & Hc).
    rewrite (CF_CHECK_EQ_status _ _ _ _ (native2_eq _ _ _ _ _ _ _ _ _ Ha Hb Hc)) in H.
    injection H as _ <-. exists a, b, c. eexists.
    repeat split; try done. by destruct res. }
  split; [|split; [|exact Hinv]].
  - intros Hlen.
    destruct (Run B SqrMod res m) as [ok m'|] eqn:E; [|done].
    destruct (Hinv ok m' eq_refl) as (a & b & _ & _ & _ & Hb & _).
    apply lookup_lt_Some in Hb. lia.
  - intros [c Hc]. split.
    + intros (ok & m' & H).
      destruct (Hinv ok m' H) as (a & b & _ & _ & _ & Hb & _).
      apply lookup_lt_Some in Hb. lia.
    + intros Hlen.
      destruct (Run_plain B SqrMod res m c eq_refl Hlen Hc) as (args & e & v & ->).
      eauto.
Qed.

Lemma SqrMod_Run_needs_two_operands_witness :
  let m := start [] [Bignum_of_text "7"] Bignum.new in
  length (bn m) = 1%nat ∧ Run Exact.backend SqrMod ResOwn m = OutOfBounds.
Proof.
  intros m. split; [reflexivity|].
  exact (proj1 (SqrMod_Run_needs_two_operands Exact.backend ResOwn m) eq_refl).
Defined.

(** * Further properties of the catalogue *)

(** ** Inversion of a returning run *)

Lemma native3_inv f impl i j k res m e m' :
  native3 f impl i j k res m = Returns e m' →
  ∃ a b d c, bn m !! i = Some a ∧ bn m !! j = Some b ∧ bn m !! k = Some d ∧
             deref res m = Some c.
Proof.
  unfold native3, mbind, Exec_bind, operand.
  destruct (bn m !! i) as [a|]; [|done].
  destruct (bn m !! j) as [b|]; [|done].
  destruct (bn m !! k) as [d|]; [|done].
  intros [c Hc]%call_inv. eauto 8.
Qed.

Lemma res_Set_inv res s m ok m' :
  res_Set res s m = Returns ok m' → res_valid res m.
Proof.
  unfold res_Set, load, mbind, Exec_bind, res_valid.
  destruct (deref res m); [eauto|done].
Qed.

Lemma Run_plain_inv B op res m ok m' :
  plain op = true → Run B op res m = Returns ok m' →
  (arity op ≤ length (bn m))%nat ∧ res_valid res m.
Proof.
  intros Hp H.
  destruct op; try discriminate Hp; simpl in H |- *;
    apply CF_CHECK_EQ_inv in H as (v & n & E);
    first
      [ apply native3_inv in E as (a & b & d & c & Ha & Hb & Hd & Hc);
        apply lookup_lt_Some in Hd
      | apply native2_inv in E as (a & b & c & Ha & Hb & Hc);
        apply lookup_lt_Some in Hb
      | apply native1_inv in E as (a & c & Ha & Hc);
        apply lookup_lt_Some in Ha ];
    (split; [lia | by eexists]).
Qed.

Lemma Cmp_Run_inv B res m ok m' :
  Cmp.Run B res m = Returns ok m' →
  ∃ a b, bn m !! 0%nat = Some a ∧ bn m !! 1%nat = Some b ∧ res_valid res m.
Proof.
  unfold Cmp.Run, mbind, Exec_bind, operand.
  destruct (bn m !! 0%nat) as [a|]; [|done].
  destruct (bn m !! 1%nat) as [b|]; [|done].
  unfold native_cmp, record, mbind, Exec_bind, mret, Exec_ret.
  change (mkMachine (ds m) (bn m) (res_own m) (?c :: log m)) with (logged c m).
  destruct (res_Set _ _ _) as [x n|] eqn:E; [|done].
  intros _. apply res_Set_inv, res_valid_logged in E. eauto.
Qed.

Lemma IsEven_Run_inv B res m ok m' :
  IsEven.Run B res m = Returns ok m' →
  ∃ a, bn m !! 0%nat = Some a ∧ res_valid res m.
Proof.
  unfold IsEven.Run, mbind, Exec_bind, operand.
  destruct (bn m !! 0%nat) as [a|]; [|done].
  unfold native_iseven, record, mbind, Exec_bind, mret, Exec_ret.
  change (mkMachine (ds m) (bn m) (res_own m) (?c :: log m)) with (logged c m).
  destruct (res_Set _ _ _) as [x n|] eqn:E; [|done].
  intros _. apply res_Set_inv, res_valid_logged in E. eauto.
Qed.

Lemma IsOdd_Run_inv B res m ok m' :
  IsOdd.Run B res m = Returns ok m' →
  ∃ a, bn m !! 0%nat = Some a ∧ res_valid res m.
Proof.
  unfold IsOdd.Run, mbind, Exec_bind, operand.
  destruct (bn m !! 0%nat) as [a|]; [|done].
  unfold native_isodd, record, mbind, Exec_bind, mret, Exec_ret.
  change (mkMachine (ds m) (bn m) (res_own m) (?c :: log m)) with (logged c m).
  destruct (res_Set _ _ _) as [x n|] eqn:E; [|done].
  intros _. apply res_Set_inv, res_valid_logged in E. eauto.
Qed.

Lemma ExpMod_Run_inv B res m ok m' :
  ExpMod.Run B res m = Returns ok m' →
  ∃ base, bn m !! 0%nat = Some base ∧
    (base_is_zero B base ∨
     ∃ e md, bn m !! 1%nat = Some e ∧ bn m !! 2%nat = Some md ∧ res_valid res m).
Proof.
  unfold ExpMod.Run, native_zero, native_cmp, record, mbind, Exec_bind.
  unfold operand. simpl.
  destruct (bn m !! 0%nat) as [base|] eqn:Hb; [|done]. simpl.
  intros H. exists base. split; [done|].
  case_bool_decide as Hz; [by left|right].
  apply CF_CHECK_EQ_inv in H as (v & n & E).
  apply native3_inv in E as (a & b & d & c & Ha & He & Hd & Hc).
  exists b, d. repeat split; try done. exists c. by destruct res.
Qed.

Lemma arity_pos op : (1 ≤ arity op)%nat.
Proof. destruct op; simpl; lia. Qed.

(** ** How many operands a run needs *)

(** X1. On an empty operand vector every operation of the catalogue indexes
    out of bounds: each [Run] evaluates [bn[0]] before it can return. *)
Theorem Run_no_operands (B : Backend) (op : Operation) (res : ResRef) (m : Machine) :
  bn m = [] → Run B op res m = OutOfBounds.
Proof.
  intros Hnil.
  destruct (Run B op res m) as [ok m'|] eqn:E; [exfalso|done].
  destruct (plain op) eqn:Hp.
  - apply Run_plain_inv in E as [Hn _]; [|done].
    pose proof (arity_pos op). rewrite Hnil in Hn. simpl in Hn. lia.
  - destruct op; try discriminate Hp; simpl in E.
    + apply ExpMod_Run_inv in E as (a & Ha & _). by rewrite Hnil in Ha.
    + apply Cmp_Run_inv in E as (a & b & Ha & _). by rewrite Hnil in Ha.
    + apply IsEven_Run_inv in E as (a & Ha & _). by rewrite Hnil in Ha.
    + apply IsOdd_Run_inv in E as (a & Ha & _). by rewrite Hnil in Ha.
Qed.

Lemma Run_no_operands_witness :
  let m := start [Byte.x01] [] (mkBignum 3) in
  bn m = [] ∧ Run Exact.backend Neg ResOwn m = OutOfBounds.
Proof.
  intros m. split; [reflexivity|].
  exact (Run_no_operands Exact.backend Neg ResOwn m eq_refl).
Defined.

(** X2. For every operation but ExpMod, with a bound result reference,
    [Run] returns if and only if the vector has at least as many operands
    as the operation indexes; with fewer it indexes out of bounds, and
    operands beyond that number never make it fault. *)
Theorem Run_returns_iff_enough_operands (B : Backend) (op : Operation) (res : ResRef)
    (m : Machine) :
  op ≠ ExpMod → res_valid res m →
  ((∃ ok m', Run B op res m = Returns ok m') ↔ (arity op ≤ length (bn m))%nat).
Proof.
  intros Hop [c Hc]. split.
  - intros (ok & m' & E).
    destruct (plain op) eqn:Hp.
    + by apply Run_plain_inv in E as [Hn _].
    + destruct op; try discriminate Hp; try done; simpl in E |- *.
      * apply Cmp_Run_inv in E as (a & b & _ & Hb & _).
        apply lookup_lt_Some in Hb. lia.
      * apply IsEven_Run_inv in E as (a & Ha & _).
        apply lookup_lt_Some in Ha. lia.
      * apply IsOdd_Run_inv in E as (a & Ha & _).
        apply lookup_lt_Some in Ha. lia.
  - intros Hn.
    destruct (plain op) eqn:Hp.
    + destruct (Run_plain B op res m c Hp Hn Hc) as (args & e & v & ->). eauto.
    + destruct op; try discriminate Hp; try done; simpl in Hn |- *.
      * destruct (operand_exists m 0 _ Hn) as [a0 H0]; [lia|].
        destruct (operand_exists m 1 _ Hn) as [a1 H1]; [lia|].
        rewrite (Cmp_Run_eq B res m a0 a1) by (done || by eexists). eauto.
      * destruct (operand_exists m 0 _ Hn) as [a0 H0]; [lia|].
        rewrite (IsEven_Run_eq B res m a0) by (done || by eexists). eauto.
      * destruct (operand_exists m 0 _ Hn) as [a0 H0]; [lia|].
        rewrite (IsOdd_Run_eq B res m a0) by (done || by eexists). eauto.
Qed.

Lemma Run_returns_iff_enough_operands_witness :
  let m := start [] [mkBignum 9; mkBignum 4; mkBignum 1; mkBignum 0] (mkBignum 3) in
  (GCD ≠ ExpMod ∧ res_valid (ResOperand 3) m) ∧
  ((∃ ok m', Run Exact.backend GCD (ResOperand 3) m = Returns ok m') ↔
   (arity GCD ≤ length (bn m))%nat).
Proof.
  intros m.
  assert (H1 : GCD ≠ ExpMod) by discriminate.
  assert (H2 : res_valid (ResOperand 3) m) by (by eexists).
  split; [by split|].
  exact (Run_returns_iff_enough_operands Exact.backend GCD (ResOperand 3) m H1 H2).
Defined.

(** X3. What [ExpMod::Run] needs depends on the base: it returns if and
    only if [bn[0]] exists and either compares equal to the local zero, in
    which case neither further operands nor a bound result reference are
    needed, or there are three operands and the result reference is
    bound. *)
Theorem ExpMod_Run_returns_iff (B : Backend) (res : ResRef) (m : Machine) :
  (∃ ok m', Run B ExpMod res m = Returns ok m') ↔
  ∃ base, bn m !! 0%nat = Some base ∧
    (base_is_zero B base ∨ ((3 ≤ length (bn m))%nat ∧ res_valid res m)).
Proof.
  split.
  - intros (ok & m' & E). simpl in E.
    apply ExpMod_Run_inv in E as (base & Hb & [Hz|(e & md & He & Hmd & Hr)]).
    + exists base. auto.
    + exists base. split; [done|right]. split; [|done].
      apply lookup_lt_Some in Hmd. lia.
  - intros (base & Hb & H). simpl.
    destruct (decide (base_is_zero B base)) as [Hz|Hz].
    + rewrite (ExpMod_Run_zero B res m base Hb Hz). eauto.
    + destruct H as [H|[Hn [c Hc]]]; [done|].
      destruct (operand_exists m 1 _ Hn) as [e He]; [lia|].
      destruct (operand_exists m 2 _ Hn) as [md Hmd]; [lia|].
      rewrite (ExpMod_Run_nonzero B res m base e md c Hb He Hmd Hc Hz). eauto.
Qed.

Lemma nonzero_base_not_zero B base :
  zero_correct B → cmp_correct B → mp base ≠ 0 → ¬ base_is_zero B base.
Proof.
  intros Hz Hc Hne. unfold base_is_zero. rewrite Hz, Hc.
  destruct (Z.compare_spec 0 (mp base)); [congruence | done | done].
Qed.

(** X4. The short circuit of [ExpMod::Run] looks at the base alone: with a
    base that is not zero, whatever the exponent and the modulus are (zero
    and negative included), [mp_exptmod] is called on [bn[0]], [bn[1]],
    [bn[2]] after [mp_zero] and [mp_cmp]; [Run] returns true exactly when
    that call reports [MP_OKAY], and the result holds what [mp_exptmod]
    left in its output. *)
Theorem ExpMod_nonzero_base_calls_exptmod (B : Backend) (res : ResRef) (m : Machine)
    (base e md c : Bignum) :
  zero_correct B → cmp_correct B →
  bn m !! 0%nat = Some base → bn m !! 1%nat = Some e → bn m !! 2%nat = Some md →
  deref res m = Some c → mp base ≠ 0 →
  ∃ m',
    Run B ExpMod res m =
      Returns (bool_decide ((mp_exptmod B (mp base) (mp e) (mp md) (mp c)).1 = MP_OKAY)) m' ∧
    log m' =
      [mkCall n_exptmod [mp base; mp e; mp md]
         (mp_exptmod B (mp base) (mp e) (mp md) (mp c)).1
         (Some (mp_exptmod B (mp base) (mp e) (mp md) (mp c)).2);
       cmp_call B (mp_zero B 0) (mp base); zero_call B] ++ log m ∧
    deref res m' = Some (mkBignum (mp_exptmod B (mp base) (mp e) (mp md) (mp c)).2).
Proof.
  intros Hz Hc Hb He Hmd Hr Hne.
  pose proof (nonzero_base_not_zero B base Hz Hc Hne) as Hnz.
  eexists. split; [|split].
  - simpl. by apply ExpMod_Run_nonzero.
  - by destruct res.
  - rewrite deref_logged, deref_assign; [done|].
    apply res_valid_logged, res_valid_logged. by eexists.
Qed.

Lemma ExpMod_nonzero_base_calls_exptmod_witness :
  let base := mkBignum 2 in
  let e := mkBignum 10 in
  let md := mkBignum 1000 in
  let c := mkBignum 11 in
  let m := start [] [base; e; md] c in
  (zero_correct Exact.backend ∧ cmp_correct Exact.backend ∧
   bn m !! 0%nat = Some base ∧ bn m !! 1%nat = Some e ∧ bn m !! 2%nat = Some md ∧
   deref ResOwn m = Some c ∧ mp base ≠ 0) ∧
  ∃ m',
    Run Exact.backend ExpMod ResOwn m = Returns true m' ∧
    log m' =
      [mkCall n_exptmod [2; 10; 1000] MP_OKAY (Some 24);
       cmp_call Exact.backend 0 2; zero_call Exact.backend] ++ log m ∧
    deref ResOwn m' = Some (mkBignum 24).
Proof.
  intros base e md c m.
  assert (H1 : bn m !! 0%nat = Some base) by reflexivity.
  assert (H2 : bn m !! 1%nat = Some e) by reflexivity.
  assert (H3 : bn m !! 2%nat = Some md) by reflexivity.
  assert (H4 : deref ResOwn m = Some c) by reflexivity.
  assert (H5 : mp base ≠ 0) by discriminate.
  split.
  - repeat split; try done.
  - exact (ExpMod_nonzero_base_calls_exptmod Exact.backend ResOwn m base e md c
             Exact_zero_correct Exact_cmp_correct H1 H2 H3 H4 H5).
Defined.

(** ** One call for each plain operation *)

Lemma Run_plain_native B op res m c :
  plain op = true → (arity op ≤ length (bn m))%nat → deref res m = Some c →
  ∃ st v,
    native_call B op (mp <$> bn m) (mp c) = Status st v ∧
    Run B op res m =
      Returns (bool_decide (st = MP_OKAY))
        (logged (mkCall (routine op) (mp <$> take (arity op) (bn m)) st (Some v))
                (assign res (mkBignum v) m)).
Proof.
  intros Hp Hn Hc.
  destruct (bn m) as [|a0 [|a1 [|a2 l]]] eqn:E;
    destruct op; try discriminate Hp; simpl in Hn; try lia;
    do 2 eexists; (split; [reflexivity|]); simpl;
    apply CF_CHECK_EQ_status;
    first [ by eapply native3_eq; [rewrite E..|]
          | by eapply native2_eq; [rewrite E..|]
          | by eapply native1_eq; [rewrite E|] ].
Qed.

(** X5. Every operation other than ExpMod, Cmp, IsEven and IsOdd, when it
    returns, has made exactly one native call: its own routine of the
    backend, applied to the first operands of the vector in their order and
    to the result object.  The call is logged with the status and the output
    that routine gave; the boolean is true exactly when the status is
    [MP_OKAY], and on success and on failure alike the result object holds
    what the routine left in its output: the adapter does not clear or
    restore it after a failure. *)
Theorem Run_plain_one_call (B : Backend) (op : Operation) (res : ResRef)
    (m : Machine) (ok : bool) (m' : Machine) :
  plain op = true → Run B op res m = Returns ok m' →
  ∃ c st v,
    deref res m = Some c ∧
    native_call B op (mp <$> bn m) (mp c) = Status st v ∧
    log m' = mkCall (routine op) (mp <$> take (arity op) (bn m)) st (Some v) :: log m ∧
    ok = bool_decide (st = MP_OKAY) ∧
    deref res m' = Some (mkBignum v).
Proof.
  intros Hp H.
  destruct (Run_plain_inv B op res m ok m' Hp H) as [Hn [c Hc]].
  destruct (Run_plain_native B op res m c Hp Hn Hc) as (st & v & Hv & E).
  rewrite E in H. injection H as <- <-.
  exists c, st, v. split; [done|]. split; [done|].
  split; [by destruct res|]. split; [done|].
  rewrite deref_logged. apply deref_assign. by eexists.
Qed.

Lemma Run_plain_one_call_witness :
  let m := start [] [mkBignum 17; mkBignum 5; mkBignum 99] (mkBignum 7) in
  let m' := mkMachine [] [mkBignum 17; mkBignum 5; mkBignum 99] (mkBignum 2)
              [mkCall n_mod [17; 5] MP_OKAY (Some 2)] in
  (plain Mod = true ∧ Run Exact.backend Mod ResOwn m = Returns true m') ∧
  ∃ c st v,
    deref ResOwn m = Some c ∧
    native_call Exact.backend Mod (mp <$> bn m) (mp c) = Status st v ∧
    log m' =
      mkCall (routine Mod) (mp <$> take (arity Mod) (bn m)) st (Some v) :: log m ∧
    true = bool_decide (st = MP_OKAY) ∧
    deref ResOwn m' = Some (mkBignum v).
Proof.
  intros m m'.
  assert (H1 : plain Mod = true) by reflexivity.
  assert (H2 : Run Exact.backend Mod ResOwn m = Returns true m') by reflexivity.
  split; [by split|].
  exact (Run_plain_one_call Exact.backend Mod ResOwn m true m' H1 H2).
Defined.

(** ** What a run leaves alone *)

(** X6. A returning [Run] never changes the number of operands, only adds
    to the log of native calls, and, when [res] is bound to an element of
    the vector, leaves the object outside the vector as it was. *)
Theorem Run_frame (B : Backend) (op : Operation) (res : ResRef)
    (m : Machine) (ok : bool) (m' : Machine) :
  Run B op res m = Returns ok m' →
  length (bn m') = length (bn m) ∧
  (res ≠ ResOwn → res_own m' = res_own m) ∧
  ∃ cs, log m' = cs ++ log m.
Proof.
  intros H. by apply keeps_Run in H as (_ & Hl & _ & Hr & Hc).
Qed.

Lemma Run_frame_witness :
  let m := start [] [mkBignum 5; mkBignum 6] (mkBignum 7) in
  let m' := mkMachine [] [mkBignum 5; mkBignum 30] (mkBignum 7)
              [mkCall n_mul [5; 6] MP_OKAY (Some 30)] in
  Run Exact.backend Mul (ResOperand 1) m = Returns true m' ∧
  length (bn m') = length (bn m) ∧
  (ResOperand 1 ≠ ResOwn → res_own m' = res_own m) ∧
  ∃ cs, log m' = cs ++ log m.
Proof.
  intros m m'.
  assert (H : Run Exact.backend Mul (ResOperand 1) m = Returns true m') by reflexivity.
  split; [exact H|].
  exact (Run_frame Exact.backend Mul (ResOperand 1) m true m' H).
Defined.

(** ** The predicates on any backend *)





(** X8. Whatever [int] the backend answers, [Cmp::Run], when it returns,
    returns true after a single call of [mp_cmp] on [bn[0]] and [bn[1]] in
    that order, and the result holds that answer as it is: unlike the
    parity predicates, the answer is not normalised. *)
Theorem Cmp_Run_passes_answer_on (B : Backend) (res : ResRef)
    (m : Machine) (ok : bool) (m' : Machine) :
  Run B Cmp res m = Returns ok m' →
  ok = true ∧
  ∃ a b r,
    bn m !! 0%nat = Some a ∧ bn m !! 1%nat = Some b ∧
    log m' = cmp_call B (mp a) (mp b) :: log m ∧
    deref res m' = Some r ∧
    mp r = mp_cmp B (mp a) (mp b) ∧
    Bignum.ToString r = to_string (mp_cmp B (mp a) (mp b)).
Proof.
  intros H. simpl in H.
  destruct (Cmp_Run_inv B res m ok m' H) as (a & b & Ha & Hb & Hr).
  rewrite (Cmp_Run_eq B res m a b Ha Hb Hr) in H. injection H as <- <-.
  split; [done|]. eexists a, b, _.
  split; [done|]. split; [done|]. split; [by destruct res|].
  split; [apply deref_assign; by apply res_valid_logged|]. done.
Qed.

Lemma Cmp_Run_passes_answer_on_witness :
  let m := start [] [mkBignum 12; mkBignum (-5)] (mkBignum 77) in
  let m' := mkMachine [] [mkBignum 12; mkBignum (-5)] (mkBignum 1)
              [mkCall n_cmp [12; -5] 1 None] in
  Run Exact.backend Cmp ResOwn m = Returns true m' ∧
  true = true ∧
  ∃ a b r,
    bn m !! 0%nat = Some a ∧ bn m !! 1%nat = Some b ∧
    log m' = cmp_call Exact.backend (mp a) (mp b) :: log m ∧
    deref ResOwn m' = Some r ∧
    mp r = mp_cmp Exact.backend (mp a) (mp b) ∧
    Bignum.ToString r = to_string (mp_cmp Exact.backend (mp a) (mp b)).
Proof.
  intros m m'.
  assert (H : Run Exact.backend Cmp ResOwn m = Returns true m') by reflexivity.
  split; [exact H|].
  exact (Cmp_Run_passes_answer_on Exact.backend ResOwn m true m' H).
Defined.

(** ** Composition *)

Lemma Exact_add_correct : add_correct Exact.backend.
Proof. intros a b c v. simpl. unfold Exact.add, Exact.ok. congruence. Qed.

Lemma Exact_sub_correct : sub_correct Exact.backend.
Proof. intros a b c v. simpl. unfold Exact.sub, Exact.ok. congruence. Qed.

Lemma native2_true f impl res m a b ok m' :
  bn m !! 0%nat = Some a → bn m !! 1%nat = Some b →
  CF_CHECK_EQ (native2 f impl 0 1 res) MP_OKAY (mret false) (mret true) m =
    Returns ok m' →
  ∃ c, deref res m = Some c ∧
       ok = bool_decide ((impl (mp a) (mp b) (mp c)).1 = MP_OKAY) ∧
       deref res m' = Some (mkBignum (impl (mp a) (mp b) (mp c)).2).
Proof.
  intros Ha Hb H.
  destruct (CF_CHECK_EQ_inv _ _ _ _ _ _ _ H) as (v & n & E).
  destruct (native2_inv _ _ _ _ _ _ _ _ E) as (_ & _ & c & _ & _ & Hc).
  rewrite (CF_CHECK_EQ_status _ _ _ _ (native2_eq _ _ _ _ _ _ _ _ _ Ha Hb Hc)) in H.
  injection H as <- <-. exists c. split; [done|]. split; [done|].
  rewrite deref_logged. apply deref_assign. by eexists.
Qed.

(** X9. [Sub::Run] undoes [Add::Run]: when [Add] on the operands (a, b)
    returns true with result s, and [Sub] on the operands (s, b) returns
    true, the result of [Sub] is a, provided the backend's sum and
    difference are right when it reports success.  Both methods pass
    [bn[0]] first and [bn[1]] second. *)
Theorem Add_then_Sub_round_trip (B : Backend) (res res' : ResRef)
    (m m1 m2 m3 : Machine) (a b s : Bignum) :
  add_correct B → sub_correct B →
  bn m !! 0%nat = Some a → bn m !! 1%nat = Some b →
  Run B Add res m = Returns true m1 → deref res m1 = Some s →
  bn m2 !! 0%nat = Some s → bn m2 !! 1%nat = Some b →
  Run B Sub res' m2 = Returns true m3 →
  deref res' m3 = Some (mkBignum (mp a)).
Proof.
  intros Hadd Hsub Ha Hb H1 Hs Hs2 Hb2 H2.
  simpl in H1, H2. unfold Add.Run in H1. unfold Sub.Run in H2. cbv zeta in H1, H2.
  destruct (native2_true _ _ _ _ _ _ _ _ Ha Hb H1) as (c & _ & Hok & Hr).
  destruct (native2_true _ _ _ _ _ _ _ _ Hs2 Hb2 H2) as (c' & _ & Hok' & Hr').
  symmetry in Hok, Hok'. apply bool_decide_eq_true in Hok, Hok'.
  rewrite Hr'. rewrite Hr in Hs. injection Hs as <-. cbn [mp] in *.
  destruct (mp_add B (mp a) (mp b) (mp c)) as [e1 v1] eqn:E1.
  simpl in *. subst e1. apply Hadd in E1. subst v1.
  destruct (mp_sub B (mp a + mp b) (mp b) (mp c')) as [e2 v2] eqn:E2.
  simpl in *. subst e2. apply Hsub in E2. subst v2.
  do 2 f_equal. lia.
Qed.

Lemma Add_then_Sub_round_trip_witness :
  let a := mkBignum (-40) in
  let b := mkBignum 58 in
  let s := mkBignum 18 in
  let m := start [] [a; b] Bignum.new in
  let m1 := mkMachine [] [a; b] s [mkCall n_add [-40; 58] MP_OKAY (Some 18)] in
  let m2 := start [] [s; b] Bignum.new in
  let m3 := mkMachine [] [s; b] a [mkCall n_sub [18; 58] MP_OKAY (Some (-40))] in
  (add_correct Exact.backend ∧ sub_correct Exact.backend ∧
   bn m !! 0%nat = Some a ∧ bn m !! 1%nat = Some b ∧
   Run Exact.backend Add ResOwn m = Returns true m1 ∧ deref ResOwn m1 = Some s ∧
   bn m2 !! 0%nat = Some s ∧ bn m2 !! 1%nat = Some b ∧
   Run Exact.backend Sub ResOwn m2 = Returns true m3) ∧
  deref ResOwn m3 = Some (mkBignum (mp a)).
Proof.
  intros a b s m m1 m2 m3.
  assert (H1 : bn m !! 0%nat = Some a) by reflexivity.
  assert (H2 : bn m !! 1%nat = Some b) by reflexivity.
  assert (H3 : Run Exact.backend Add ResOwn m = Returns true m1) by reflexivity.
  assert (H4 : deref ResOwn m1 = Some s) by reflexivity.
  assert (H5 : bn m2 !! 0%nat = Some s) by reflexivity.
  assert (H6 : bn m2 !! 1%nat = Some b) by reflexivity.
  assert (H7 : Run Exact.backend Sub ResOwn m2 = Returns true m3) by reflexivity.
  split.
  - repeat split; try done.
    + apply Exact_add_correct.
    + apply Exact_sub_correct.
  - exact (Add_then_Sub_round_trip Exact.backend ResOwn ResOwn m m1 m2 m3 a b s
             Exact_add_correct Exact_sub_correct H1 H2 H3 H4 H5 H6 H7).
Defined.

(** ** Operands that are not indexed *)

Lemma lockstep_ret n {A} (a : A) : lockstep n (mret a).
Proof. by intros m1 m2 H. Qed.

Lemma lockstep_bind n {A C} (e : Exec A) (k : A → Exec C) :
  lockstep n e → (∀ a, lockstep n (k a)) → lockstep n (e ≫= k).
Proof.
  intros He Hk m1 m2 H. unfold mbind, Exec_bind.
  specialize (He m1 m2 H).
  destruct (e m1) as [a1 n1|], (e m2) as [a2 n2|]; simpl in He; try done.
  destruct He as [-> Hn]. by apply Hk.
Qed.

Lemma lockstep_operand n i : (i < n)%nat → lockstep n (operand i).
Proof.
  intros Hi m1 m2 H. unfold operand.
  assert (bn m1 !! i = bn m2 !! i) as ->.
  { destruct H as (Ht & _).
    by rewrite <- (lookup_take_lt (bn m1) n i), Ht, lookup_take_lt. }
  by destruct (bn m2 !! i).
Qed.

Lemma lockstep_load n : lockstep n (load ResOwn).
Proof. intros m1 m2 H. simpl. split; [|done]. by destruct H as (_ & -> & _). Qed.

Lemma lockstep_store n b : lockstep n (store ResOwn b).
Proof. intros m1 m2 (Ht & Hr & Hl). simpl. by repeat split. Qed.

Lemma lockstep_record n c : lockstep n (record c).
Proof.
  intros m1 m2 (Ht & Hr & Hl). simpl. repeat split; try done. by rewrite Hl.
Qed.

Lemma lockstep_if n {A} (b : bool) (e1 e2 : Exec A) :
  lockstep n e1 → lockstep n e2 → lockstep n (if b then e1 else e2).
Proof. by destruct b. Qed.

Lemma lockstep_call n f args impl : lockstep n (call f args impl ResOwn).
Proof.
  unfold call. apply lockstep_bind; [apply lockstep_load|]. intros c.
  destruct (impl (mp c)) as [e v].
  repeat (apply lockstep_bind;
            [first [apply lockstep_store | apply lockstep_record]|intros ?]).
  apply lockstep_ret.
Qed.

Lemma lockstep_res_Set n s : lockstep n (res_Set ResOwn s).
Proof.
  unfold res_Set. apply lockstep_bind; [apply lockstep_load|]. intros c.
  destruct (Bignum.Set_ s c) as [ok b'].
  apply lockstep_bind; [apply lockstep_store|intros ?]. apply lockstep_ret.
Qed.

Ltac lockstep_step :=
  first
    [ apply lockstep_ret | apply lockstep_call | apply lockstep_res_Set
    | apply lockstep_record | apply lockstep_if
    | apply lockstep_operand; simpl; lia
    | apply lockstep_bind; [|intros ?] ].

(** X10. [Run] looks at no operand beyond those it indexes.  With the result
    bound to an object outside the vector, two runs of an operation on
    vectors that agree on the first operands, as many as the operation
    indexes, and that start from the same result object, both fault or
    return the same boolean with the same result; the vectors may differ in
    length and in every later operand. *)
Theorem Run_ignores_further_operands (B : Backend) (op : Operation) (m1 m2 : Machine) :
  agree (arity op) m1 m2 →
  alike (agree (arity op)) (Run B op ResOwn m1) (Run B op ResOwn m2).
Proof.
  revert m1 m2. change (lockstep (arity op) (Run B op ResOwn)).
  destruct op; simpl;
    unfold Add.Run, Sub.Run, Mul.Run, Div.Run, Sqr.Run, Mod.Run, ExpMod.Run,
      GCD.Run, AddMod.Run, SubMod.Run, MulMod.Run, SqrMod.Run, InvMod.Run,
      LCM.Run, Cmp.Run, Abs.Run, Neg.Run, IsEven.Run, IsOdd.Run,
      CF_CHECK_EQ, native1, native2, native3,
      native_zero, native_cmp, native_iseven, native_isodd;
    cbv zeta; repeat lockstep_step.
Qed.

Lemma Run_ignores_further_operands_witness :
  let m1 := start [Byte.x07]
              [mkBignum 17; mkBignum 5; mkBignum 99; mkBignum (-1)] (mkBignum 8) in
  let m2 := start [] [mkBignum 17; mkBignum 5] (mkBignum 8) in
  agree (arity Mod) m1 m2 ∧
  alike (agree (arity Mod)) (Run Exact.backend Mod ResOwn m1)
                            (Run Exact.backend Mod ResOwn m2).
Proof.
  intros m1 m2.
  assert (H : agree (arity Mod) m1 m2) by (by repeat split).
  split; [exact H|].
  exact (Run_ignores_further_operands Exact.backend Mod m1 m2 H).
Defined.
